(** * cpp-readline: the Console core (src/Console.cpp)

    A shallow embedding of [CppReadline::Console]: the command registry,
    the dispatcher [executeCommand], the script runner [executeFile], the
    reservation protocol [reserveConsole] / [saveState] and the two
    completion generators [commandIterator] and [argumentIterator].

    Conventions of the embedding.
    - A [std::string] and a C string are both a [string]; texts carry no
      NUL character, so [c_str()] and [strdup] are the identity.
    - An [int] is a [Z]; the code does no arithmetic on return codes, and
      the line counter of a script stays far below [2^31].
    - A [char*] result that may be [nullptr] is an [option string].
    - A [Console] object is named by its address, a [positive]; the
      [pimpl_] of every live console sits in a finite map.
    - [std::unordered_map] is a [gmap]: one entry per key, enumerated in
      an order the container fixes ([map_to_list]).
    - An iterator is the index of its element in that enumeration. *)

From Stdlib Require Import ZArith Ascii String DecimalString.
From stdpp Require Import gmap strings list fin_maps.

Local Open Scope Z_scope.

(** ** Texts *)

Module Text.

Local Open Scope string_scope.

(** [std::isspace] in the "C" locale: space, \t, \n, \v, \f, \r. *)
Definition isspace (c : ascii) : bool :=
  let n := nat_of_ascii c in
  (Nat.eqb n 32 || (Nat.leb 9 n && Nat.leb n 13))%bool.

(** [std::istream_iterator<std::string>] over an [istringstream]: each
    extraction skips leading white space and reads up to the next white
    space or the end of the stream.  [word] is the token being read. *)
Fixpoint extract (word : string) (s : string) : list string :=
  match s with
  | EmptyString =>
      match word with EmptyString => [] | _ => [word] end
  | String c s' =>
      if isspace c then
        match word with
        | EmptyString => extract EmptyString s'
        | _ => word :: extract EmptyString s'
        end
      else extract (word +:+ String c EmptyString) s'
  end.

Definition istream_words (s : string) : list string := extract EmptyString s.

(** [s.find(str)], with [npos] as [None]. *)
Definition find (s str : string) : option nat := String.index 0 str s.

(** [std::strstr(haystack, needle) != nullptr]. *)
Definition strstr (haystack needle : string) : bool :=
  bool_decide (is_Some (String.index 0 needle haystack)).

(** [s.find(str) != std::string::npos]. *)
Definition contains (s str : string) : bool := bool_decide (is_Some (find s str)).

(** [s[0]]: since C++11 [s[s.size()]] is the NUL character. *)
Definition front (s : string) : ascii :=
  match s with
  | EmptyString => Ascii.zero
  | String c _ => c
  end.

(** [std::cout << n] for an [int]. *)
Definition of_int (n : Z) : string := NilZero.string_of_int (Z.to_int n).

(** What "contains as a substring" means. *)
Definition substring_of (t s : string) : Prop :=
  exists pre post, s = pre +:+ t +:+ post.

End Text.

(** ** Data model *)

(** A [Console*]: the address of a console object. *)
Abbreviation ConsolePtr := positive (only parsing).

(** [HISTORY_STATE]: the entries of a history list, oldest first.  GNU
    readline's [history_get_history_state] hands out the list as it is at
    the time of the call, [history_set_history_state] installs one. *)
Abbreviation HISTORY_STATE := (list string) (only parsing).

(** [Console::Arguments], a [std::vector<std::string>]. *)
Abbreviation Arguments := (list string) (only parsing).

(** Modelled from the spec: [enum ReturnCode] is declared in Console.hpp,
    which is not part of the sources at hand; the spec fixes [Ok = 0] and
    [Error = 1].  [Quit] and [COMPLETE_FILE], whose values the spec leaves
    open, are parameters of the development (section [Console] below). *)
Definition Ok : Z := 0.
Definition Error : Z := 1.

(** The callable half of a [CommandFunction].  The three lambdas of the
    constructor are kept as data together with the [this] they capture; a
    handler of the host application is a function from the token list to
    its return code and the text it writes to [std::cout].  Host handlers
    that call back into a console (reserve it, read a line, register a
    command) or into readline are outside this development: what is
    proved about dispatching holds for the built-in handlers and for
    host handlers of this kind. *)
Inductive CommandHandler : Type :=
  | lambda_help (this : ConsolePtr)
  | lambda_run (this : ConsolePtr)
  | lambda_quit
  | host_function (f : Arguments -> Z * string).

(** [Console::CommandFunction]: [first] is the handler, [second] the hints. *)
Abbreviation CommandFunction := (CommandHandler * list string)%type (only parsing).

(** [struct Console::Impl]. *)
Record Impl : Type := mkImpl {
  greeting_ : string;
  commands_ : gmap string CommandFunction;
  history_ : option HISTORY_STATE          (* nullptr is None *)
}.

(** Everything the code reads or writes: the two namespace-scope statics,
    the state of the readline engine, the console objects, the function
    statics of the two generators, and the outside world. *)
Record Process : Type := mkProcess {
  currentConsole : option ConsolePtr;      (* nullptr is None *)
  emptyHistory : HISTORY_STATE;
  the_history : HISTORY_STATE;             (* readline's live history *)
  rl_line_buffer : string;
  rl_attempted_completion_over : Z;
  rl_attempted_completion_function : bool; (* is getCommandCompletions hooked *)
  consoles : gmap positive Impl;
  commandIterator_it : nat;                (* static it, Console.cpp:252 *)
  argumentIterator_it : nat;               (* static it, Console.cpp:227 *)
  cout : string;
  files : string -> option (list string);  (* the lines std::getline yields *)
  opened : list string                     (* every std::ifstream opened *)
}.

Definition set_history_ (h : option HISTORY_STATE) (i : Impl) : Impl :=
  mkImpl (greeting_ i) (commands_ i) h.
Definition set_commands_ (c : gmap string CommandFunction) (i : Impl) : Impl :=
  mkImpl (greeting_ i) c (history_ i).
Definition set_greeting_ (g : string) (i : Impl) : Impl :=
  mkImpl g (commands_ i) (history_ i).

Definition set_currentConsole (c : option ConsolePtr) (st : Process) : Process :=
  mkProcess c (emptyHistory st) (the_history st) (rl_line_buffer st)
    (rl_attempted_completion_over st) (rl_attempted_completion_function st)
    (consoles st) (commandIterator_it st) (argumentIterator_it st)
    (cout st) (files st) (opened st).
Definition set_the_history (h : HISTORY_STATE) (st : Process) : Process :=
  mkProcess (currentConsole st) (emptyHistory st) h (rl_line_buffer st)
    (rl_attempted_completion_over st) (rl_attempted_completion_function st)
    (consoles st) (commandIterator_it st) (argumentIterator_it st)
    (cout st) (files st) (opened st).
Definition set_rl_attempted_completion_over (v : Z) (st : Process) : Process :=
  mkProcess (currentConsole st) (emptyHistory st) (the_history st)
    (rl_line_buffer st) v (rl_attempted_completion_function st)
    (consoles st) (commandIterator_it st) (argumentIterator_it st)
    (cout st) (files st) (opened st).
Definition set_rl_attempted_completion_function (b : bool) (st : Process) : Process :=
  mkProcess (currentConsole st) (emptyHistory st) (the_history st)
    (rl_line_buffer st) (rl_attempted_completion_over st) b
    (consoles st) (commandIterator_it st) (argumentIterator_it st)
    (cout st) (files st) (opened st).
Definition set_consoles (m : gmap positive Impl) (st : Process) : Process :=
  mkProcess (currentConsole st) (emptyHistory st) (the_history st)
    (rl_line_buffer st) (rl_attempted_completion_over st)
    (rl_attempted_completion_function st)
    m (commandIterator_it st) (argumentIterator_it st)
    (cout st) (files st) (opened st).
Definition set_commandIterator_it (it : nat) (st : Process) : Process :=
  mkProcess (currentConsole st) (emptyHistory st) (the_history st)
    (rl_line_buffer st) (rl_attempted_completion_over st)
    (rl_attempted_completion_function st)
    (consoles st) it (argumentIterator_it st)
    (cout st) (files st) (opened st).
Definition set_argumentIterator_it (it : nat) (st : Process) : Process :=
  mkProcess (currentConsole st) (emptyHistory st) (the_history st)
    (rl_line_buffer st) (rl_attempted_completion_over st)
    (rl_attempted_completion_function st)
    (consoles st) (commandIterator_it st) it
    (cout st) (files st) (opened st).
Definition set_rl_line_buffer (s : string) (st : Process) : Process :=
  mkProcess (currentConsole st) (emptyHistory st) (the_history st) s
    (rl_attempted_completion_over st) (rl_attempted_completion_function st)
    (consoles st) (commandIterator_it st) (argumentIterator_it st)
    (cout st) (files st) (opened st).

(** [std::cout << s]. *)
Definition print (s : string) (st : Process) : Process :=
  mkProcess (currentConsole st) (emptyHistory st) (the_history st)
    (rl_line_buffer st) (rl_attempted_completion_over st)
    (rl_attempted_completion_function st)
    (consoles st) (commandIterator_it st) (argumentIterator_it st)
    (cout st +:+ s) (files st) (opened st).

(** [std::ifstream input(filename)]: the attempt is recorded.  Whether
    the stream is good is read off [files]; the limits of the machine
    (open descriptors, stack) are not part of the development. *)
Definition open_ifstream (filename : string) (st : Process) : Process :=
  mkProcess (currentConsole st) (emptyHistory st) (the_history st)
    (rl_line_buffer st) (rl_attempted_completion_over st)
    (rl_attempted_completion_function st)
    (consoles st) (commandIterator_it st) (argumentIterator_it st)
    (cout st) (files st) (opened st ++ [filename]).

(** ** The readline history primitives *)

Definition history_get_history_state (st : Process) : HISTORY_STATE :=
  the_history st.
Definition history_set_history_state (h : HISTORY_STATE) (st : Process) : Process :=
  set_the_history h st.
Definition add_history (line : string) (st : Process) : Process :=
  set_the_history (the_history st ++ [line]) st.

(** The process before [main]: the initialiser of [emptyHistory]
    (Console.cpp:20) snapshots a history nobody has written to yet. *)
Definition process_start (fs : string -> option (list string)) : Process :=
  mkProcess None [] [] EmptyString 0 false ∅ 0%nat 0%nat EmptyString fs [].

(** An exception leaving a function. *)
Inductive exception : Type := out_of_range.

Inductive outcome (A : Type) : Type :=
  | Returns (a : A)
  | Throws (e : exception).
Arguments Returns {A} a.
Arguments Throws {A} e.

(** ** The console (Console.cpp) *)

Definition endl : string := String (ascii_of_nat 10) EmptyString.  (* "\n" *)
Definition tab : string := String (ascii_of_nat 9) EmptyString.    (* "\t" *)

Section Console.

(** [ReturnCode::Quit] and [Console::COMPLETE_FILE] of Console.hpp. *)
Variable Quit : Z.
Variable COMPLETE_FILE : string.

Local Open Scope string_scope.

(** [Console::Console(greeting)], for the object at address [this]. *)
Definition builtin_commands (this : ConsolePtr) : gmap string CommandFunction :=
  <["exit" := (lambda_quit, [])]>
    (<["quit" := (lambda_quit, [])]>
       (<["run" := (lambda_run this, [COMPLETE_FILE])]>
          (<["help" := (lambda_help this, [])]> ∅))).

Definition Console_new (this : ConsolePtr) (greeting : string) (st : Process) : Process :=
  let st := set_rl_attempted_completion_function true st in
  set_consoles (<[this := mkImpl greeting (builtin_commands this) None]> (consoles st)) st.

(** [Console::registerCommand(s, f)]: [pimpl_->commands_[s] = f]. *)
Definition registerCommand (this : ConsolePtr) (s : string) (f : CommandFunction)
    (st : Process) : Process :=
  set_consoles
    (alter (fun i => set_commands_ (<[s := f]> (commands_ i)) i) this (consoles st)) st.

(** The names in the order in which the map enumerates its entries. *)
Definition command_names (commands : gmap string CommandFunction) : list string :=
  (map_to_list commands).*1.

(** [Console::getRegisteredCommands()]. *)
Definition getRegisteredCommands (this : ConsolePtr) (st : Process) : list string :=
  match consoles st !! this with
  | Some i => command_names (commands_ i)
  | None => []
  end.

(** [pimpl_->commands_.find(name)], [end(commands_)] as [None]. *)
Definition find_command (this : ConsolePtr) (name : string) (st : Process)
    : option CommandFunction :=
  consoles st !! this ≫= fun i => commands_ i !! name.

Definition setGreeting (this : ConsolePtr) (greeting : string) (st : Process) : Process :=
  set_consoles (alter (set_greeting_ greeting) this (consoles st)) st.

Definition getGreeting (this : ConsolePtr) (st : Process) : string :=
  match consoles st !! this with
  | Some i => greeting_ i
  | None => EmptyString
  end.

(** *** Reservation *)

(** [Console::saveState()]. *)
Definition saveState (this : ConsolePtr) (st : Process) : Process :=
  set_consoles
    (alter (set_history_ (Some (history_get_history_state st))) this (consoles st)) st.

(** [Console::reserveConsole()]. *)
Definition reserveConsole (this : ConsolePtr) (st : Process) : Process :=
  if bool_decide (currentConsole st = Some this) then st
  else
    let st :=
      match currentConsole st with
      | Some other => saveState other st
      | None => st
      end in
    let st :=
      match consoles st !! this ≫= history_ with
      | None => history_set_history_state (emptyHistory st) st
      | Some h => history_set_history_state h st
      end in
    set_currentConsole (Some this) st.

(** *** Dispatch and scripts *)

(** The result of a call that needs the script runner: [None] when the
    nesting of [run] inside scripts exceeds the fuel. *)
Definition Call : Type := Process -> option (Z * Process).

(** Calling [it->second.first] on the tokens [input0 :: rest];
    [executeFile] is the script runner the [run] lambda delegates to. *)
Definition invoke (executeFile : ConsolePtr -> string -> Call)
    (f : CommandHandler) (input0 : string) (rest : list string) : Call :=
  fun st =>
    match f with
    | lambda_help this =>
        let commands := getRegisteredCommands this st in
        let st := print ("Available commands are:" +:+ endl) st in
        let st := foldl (fun st command => print (tab +:+ command +:+ endl) st) st commands in
        Some (Ok, st)
    | lambda_run this =>
        match rest with
        | [] => Some (1, print ("Usage: " +:+ input0 +:+ " script_filename" +:+ endl) st)
        | filename :: _ => executeFile this filename st
        end
    | lambda_quit => Some (Quit, st)
    | host_function f =>
        let '(code, text) := f (input0 :: rest) in Some (code, print text st)
    end.

(** [Console::executeCommand(command)], open in the script runner. *)
Definition dispatch (executeFile : ConsolePtr -> string -> Call)
    (this : ConsolePtr) (command : string) : Call :=
  fun st =>
    match Text.istream_words command with
    | [] => Some (Ok, st)
    | input0 :: rest =>
        match find_command this input0 st with
        | Some (f, _) => invoke executeFile f input0 rest st
        | None => Some (Error, print ("Command '" +:+ input0 +:+ "' not found." +:+ endl) st)
        end
    end.

(** The [while (std::getline(input, command))] loop of [executeFile]. *)
Fixpoint script_loop (executeCommand : string -> Call) (lines : list string)
    (counter : Z) (st : Process) : option (Z * Process) :=
  match lines with
  | [] => Some (Ok, st)
  | command :: more =>
      if Ascii.eqb (Text.front command) "#" then script_loop executeCommand more counter st
      else
        let st := print ("[" +:+ Text.of_int counter +:+ "] " +:+ command +:+ endl) st in
        match executeCommand command st with
        | None => None
        | Some (result, st) =>
            if (result =? 0)%Z
            then script_loop executeCommand more (counter + 1)%Z (print endl st)
            else Some (result, st)
        end
  end.

(** [Console::executeFile(filename)]. *)
Fixpoint executeFile (fuel : nat) (this : ConsolePtr) (filename : string)
    (st : Process) : option (Z * Process) :=
  match fuel with
  | O => None
  | S fuel =>
      let st := open_ifstream filename st in
      match files st filename with
      | None =>
          Some (Error, print ("Could not find the specified file to execute." +:+ endl) st)
      | Some lines => script_loop (dispatch (executeFile fuel) this) lines 0 st
      end
  end.

(** [Console::executeCommand(command)]. *)
Definition executeCommand (fuel : nat) (this : ConsolePtr) (command : string) : Call :=
  dispatch (executeFile fuel) this command.

(** [Console::readLine()]; [buffer] is what [readline] returns for the
    prompt, [None] at the end of the input. *)
Definition readLine (fuel : nat) (this : ConsolePtr) (buffer : option string) : Call :=
  fun st =>
    let st := reserveConsole this st in
    match buffer with
    | None => Some (Quit, print endl st)
    | Some line =>
        let st := match line with EmptyString => st | _ => add_history line st end in
        executeCommand fuel this line st
    end.

End Console.

(** ** Completion (Console.cpp:188-268) *)

(** [rl_compentry_func_t]: a generator called with the typed text and the
    number of the call. *)
Definition entry_function : Type :=
  string -> Z -> Process -> outcome (option string) * Process.

(** The calling protocol of [rl_completion_matches]: the generator is
    called with [state] 0, 1, 2, ...  [calls_from state n] makes [n] such
    calls and lists what each one gave.  The function statics of the two
    generators stand for the code's iterators inside such a session
    only, that is after a call with [state] 0 on the same container; a
    call with another [state] that no such call precedes uses a singular
    or stale iterator in the code, and nothing is claimed about it. *)
Fixpoint calls_from (state : Z) (n : nat) (text : string) (gen : entry_function)
    (st : Process) : list (outcome (option string)) * Process :=
  match n with
  | O => ([], st)
  | S n =>
      let '(r, st) := gen text state st in
      let '(rs, st) := calls_from (state + 1) n text gen st in
      (r :: rs, st)
  end.

Definition successive_calls (n : nat) (text : string) (gen : entry_function)
    (st : Process) : list (outcome (option string)) * Process :=
  calls_from 0 n text gen st.

Section Completion.

Variable COMPLETE_FILE : string.

(** [currentConsole->pimpl_->commands_]. *)
Definition commands_of (c : ConsolePtr) (st : Process) : gmap string CommandFunction :=
  match consoles st !! c with
  | Some i => commands_ i
  | None => ∅
  end.

(** The [while (it != end(commands))] loop of [commandIterator]; [rest]
    is what the map enumerates from [it] on. *)
Fixpoint commandIterator_loop (text : string) (rest : list string) (it : nat)
    : option string * nat :=
  match rest with
  | [] => (None, it)
  | command :: rest =>
      if Text.contains command text then (Some command, S it)
      else commandIterator_loop text rest (S it)
  end.

(** [Console::commandIterator(text, state)]. *)
Definition commandIterator : entry_function :=
  fun text state st =>
    match currentConsole st with
    | None => (Returns None, st)
    | Some cur =>
        let commands := command_names (commands_of cur st) in
        let it := if state =? 0 then 0%nat else commandIterator_it st in
        let '(r, it) := commandIterator_loop text (drop it commands) it in
        (Returns r, set_commandIterator_it it st)
    end.

(** The [while (it + 1 != params.end())] loop of [argumentIterator];
    [rest] is what follows [*it] in [params]. *)
Fixpoint argumentIterator_loop (line argName : string) (rest : list string) (it : nat)
    : option string * nat :=
  match rest with
  | [] => (None, it)
  | hint :: rest =>
      if Text.strstr line hint then argumentIterator_loop line argName rest (S it)
      else if Text.contains hint argName then (Some hint, S it)
      else argumentIterator_loop line argName rest (S it)
  end.

(** [Console::argumentIterator(text, state)]; [v.at(i)] throws
    [std::out_of_range] when [i >= v.size()]. *)
Definition argumentIterator : entry_function :=
  fun text state st =>
    match currentConsole st with
    | None => (Returns None, st)
    | Some cur =>
        let results := Text.istream_words (rl_line_buffer st) in
        match results !! 0%nat with
        | None => (Throws out_of_range, st)
        | Some commandName =>
            let argName := default EmptyString (results !! 1%nat) in
            match commands_of cur st !! commandName with
            | None => (Returns None, st)
            | Some (_, params) =>
                match params !! 0%nat with
                | None => (Throws out_of_range, st)
                | Some first =>
                    if String.eqb first COMPLETE_FILE then (Returns None, st)
                    else
                      let st := set_rl_attempted_completion_over 1 st in
                      let it := if state =? 0 then 0%nat else argumentIterator_it st in
                      let '(r, it) :=
                        argumentIterator_loop (rl_line_buffer st) argName
                          (drop (S it) params) it in
                      (Returns r, set_argumentIterator_it it st)
                end
            end
        end
    end.

(** [Console::getCommandCompletions(text, start, end)], for any
    [rl_completion_matches]. *)
Definition getCommandCompletions {A : Type}
    (rl_completion_matches : string -> entry_function -> A)
    (text : string) (start _end : Z) : A :=
  if start =? 0 then rl_completion_matches text commandIterator
  else rl_completion_matches text argumentIterator.

End Completion.

(** ** Notions the statements use *)

(** A console object lives at address [c]. *)
Definition alive (c : ConsolePtr) (st : Process) : Prop :=
  is_Some (consoles st !! c).

(** [c]'s [pimpl_->history_]. *)
Definition historyHandle (c : ConsolePtr) (st : Process) : option HISTORY_STATE :=
  consoles st !! c ≫= history_.

(** The history that belongs to console [c]: the live one while [c] is
    current, else the one it saved, else the empty one it would start
    from. *)
Definition history_of (c : ConsolePtr) (st : Process) : HISTORY_STATE :=
  if bool_decide (currentConsole st = Some c) then the_history st
  else default (emptyHistory st) (historyHandle c st).

(** The scenario of two consoles taking turns. *)
Section Isolation.

Variables (X Y : ConsolePtr) (h1 h2 h3 : string) (st : Process).

(** [X] is reserved and records [h1], [h2]. *)
Definition X_recorded : Process :=
  add_history h2 (add_history h1 (reserveConsole X st)).

(** Then [Y] is reserved and records [h3]. *)
Definition Y_recorded : Process :=
  add_history h3 (reserveConsole Y X_recorded).

(** Then [X] is reserved again. *)
Definition X_again : Process := reserveConsole X Y_recorded.

End Isolation.

(** A line of a script is a comment. *)
Definition is_comment (line : string) : bool := Ascii.eqb (Text.front line) "#".

(** What the script runner writes before it dispatches a line. *)
Definition echo (counter : Z) (command : string) : string :=
  ("[" +:+ Text.of_int counter +:+ "] " +:+ command +:+ endl)%string.

(** The usage error of [run] as the specification words it: a non-zero
    code other than [Error], and no file opened. *)
Definition usage_error_is_distinct (Quit : Z) (fuel : nat) (this : ConsolePtr)
    (rawLine : string) (st : Process) : Prop :=
  forall code st', executeCommand Quit fuel this rawLine st = Some (code, st') ->
    code <> Ok /\ code <> Error /\ opened st' = opened st.

(** The test a hint passes to be offered: it does not occur in the line
    buffer and the argument occurs in it (Console.cpp:239-245). *)
Definition offered (line argName hint : string) : Prop :=
  Text.strstr line hint = false /\ Text.contains hint argName = true.

Global Instance offered_dec line argName hint : Decision (offered line argName hint).
Proof. unfold offered. apply _. Defined.

(** The argument the generator matches hints against: the second token
    of the line buffer, empty when there is none (Console.cpp:210-213). *)
Definition argName_of (results : list string) : string :=
  default EmptyString (results !! 1%nat).

(** What the [k]-th call of a session on command names finds: the static
    iterator stands after the first [k] matches (at call 0 it is reset). *)
Definition commandIterator_inv (cur : ConsolePtr) (names : list string) (text : string)
    (k : nat) (st : Process) : Prop :=
  currentConsole st = Some cur
  /\ command_names (commands_of cur st) = names
  /\ (k = 0%nat
      \/ filter (fun c => Text.contains c text = true) (drop (commandIterator_it st) names)
         = drop k (filter (fun c => Text.contains c text = true) names)).

(** The same for a session on the hints [first :: hints] of a command. *)
Definition argumentIterator_inv (cur : ConsolePtr) (line commandName : string)
    (more : list string) (f : CommandHandler) (first : string) (hints : list string)
    (k : nat) (st : Process) : Prop :=
  currentConsole st = Some cur
  /\ rl_line_buffer st = line
  /\ Text.istream_words line = commandName :: more
  /\ commands_of cur st !! commandName = Some (f, first :: hints)
  /\ (k = 0%nat
      \/ filter (offered line (argName_of (commandName :: more)))
           (drop (S (argumentIterator_it st)) (first :: hints))
         = drop k (filter (offered line (argName_of (commandName :: more))) hints)).

(** Whatever the first call returns, the second returns too. *)
Definition call_le (c1 c2 : Call) : Prop :=
  forall st r, c1 st = Some r -> c2 st = Some r.

(** What dispatching leaves alone: the reservation state, the consoles
    and the files; only [std::cout] and the record of opened files move. *)
Definition kept (st st' : Process) : Prop :=
  currentConsole st' = currentConsole st
  /\ the_history st' = the_history st
  /\ emptyHistory st' = emptyHistory st
  /\ consoles st' = consoles st
  /\ files st' = files st.

Definition keeps (c : Call) : Prop :=
  forall st code st', c st = Some (code, st') -> kept st st'.

(** ** Notions of the further properties *)

(** No character of [w] is white space. *)
Definition whitespace_free (w : string) : Prop :=
  Forall (fun c => Text.isspace c = false) (list_ascii_of_string w).

(** Every character of [s] is white space. *)
Definition blank (s : string) : Prop :=
  Forall (fun c => Text.isspace c = true) (list_ascii_of_string s).

(** What a token of a line looks like. *)
Definition is_token (w : string) : Prop :=
  w <> EmptyString /\ whitespace_free w.

(** Tokens written on one line, a space after each. *)
Definition unwords (ws : list string) : string :=
  foldr (fun w line => w +:+ String " "%char line) EmptyString ws.

(** The text the [help] lambda writes for the names [commands]. *)
Definition help_listing (commands : list string) : string :=
  ("Available commands are:" +:+ endl
   +:+ foldr (fun command text => tab +:+ command +:+ endl +:+ text) EmptyString commands)%string.

(** What a completion call can change: the two function statics and
    [rl_attempted_completion_over], nothing else. *)
Definition completion_kept (st st' : Process) : Prop :=
  kept st st'
  /\ cout st' = cout st
  /\ opened st' = opened st
  /\ rl_line_buffer st' = rl_line_buffer st
  /\ rl_attempted_completion_function st' = rl_attempted_completion_function st.

(** The output of [st'] is that of [st] with more text after it. *)
Definition cout_extends (st st' : Process) : Prop :=
  exists out, cout st' = (cout st +:+ out)%string.

Definition appends (c : Call) : Prop :=
  forall st code st', c st = Some (code, st') -> cout_extends st st'.

(** C3 as the specification words it: a session offers the hints after
    the first that do not occur in the line buffer and that contain the
    text handed in for completion. *)
Definition offers_hints_containing_text (COMPLETE_FILE text : string)
    (hints : list string) (n : nat) (st : Process) : Prop :=
  (successive_calls n text (argumentIterator COMPLETE_FILE) st).1
  = (fun k => Returns (filter (offered (rl_line_buffer st) text) hints !! k)) <$> seq 0 n.

(** ** Processes to run the code on *)

Module Demo.

Local Open Scope string_scope.

(** Values for the two parameters; any code other than [Ok] and [Error]
    and any text would do. *)
Definition Quit : Z := -1.
Definition COMPLETE_FILE : string := "<file>".

(** The script of the specification's example, and one more line. *)
Definition script : list string := ["help"; "#comment"; "quit"; "help"].

(** A script with an empty second line. *)
Definition spaced_script : list string := ["help"; EmptyString; "quit"].

Definition disk (filename : string) : option (list string) :=
  if String.eqb filename "script" then Some script
  else if String.eqb filename "spaced" then Some spaced_script
  else None.

Definition X : ConsolePtr := 1%positive.
Definition Y : ConsolePtr := 2%positive.

(** Two consoles have been constructed, none has read a line yet. *)
Definition two_consoles : Process :=
  Console_new COMPLETE_FILE Y "Y> " (Console_new COMPLETE_FILE X "X> " (process_start disk)).

(** [X] owns the engine. *)
Definition X_current : Process := reserveConsole X two_consoles.

(** A command of the host with three hints after the first slot. *)
Definition mode : CommandFunction :=
  (host_function (fun _ => (0, "mode set")), ["--"; "fast"; "safe"; "unsafe"]).

(** The operator typed [mode sa] in [X] and asks for completion. *)
Definition typing_mode : Process :=
  set_rl_line_buffer "mode sa" (registerCommand X "mode" mode X_current).

(** A process whose current console has exactly the registry [names]. *)
Definition with_registry (names : list string) : Process :=
  set_currentConsole (Some X)
    (set_consoles
       {[ X := mkImpl "> " (list_to_map ((fun n => (n, (lambda_quit, []))) <$> names)) None ]}
       (process_start disk)).

End Demo.

(** ** More processes to run the code on *)

Module More.

Local Open Scope string_scope.

(** The operator typed [mode u s] in [X] and asks for completion of
    the last word, [s]. *)
Definition typing_third_word : Process :=
  set_rl_line_buffer "mode u s" (registerCommand Demo.X "mode" Demo.mode Demo.X_current).

(** The operator typed [mode] and two blanks in [X] and asks for completion. *)
Definition typing_after_mode : Process :=
  set_rl_line_buffer "mode  " (registerCommand Demo.X "mode" Demo.mode Demo.X_current).

(** The operator typed only blanks. *)
Definition typing_blanks : Process := set_rl_line_buffer "   " Demo.X_current.

(** The operator typed a word no command is registered under. *)
Definition typing_unknown : Process := set_rl_line_buffer "frob x" Demo.X_current.

End More.


(** * Facts *)

(** ** Texts *)

Module TextFacts.

Import Text.
Local Open Scope string_scope.

Lemma append_cons (a : ascii) (s t : string) :
  String a s +:+ t = String a (s +:+ t).
Proof. reflexivity. Qed.

Lemma append_nil (t : string) : EmptyString +:+ t = t.
Proof. reflexivity. Qed.

Lemma prefix_app (t s : string) :
  String.prefix t s = true <-> exists post, s = t +:+ post.
Proof.
  revert s. induction t as [|a t IH]; intros s.
  - split; [intros _; by exists s | by destruct s].
  - destruct s as [|b s]; simpl.
    + split; [done | intros [post H]; discriminate H].
    + destruct (ascii_dec a b) as [->|Hab].
      * rewrite IH. split; intros [post H]; exists post;
          rewrite append_cons in *; congruence.
      * split; [done | intros [post H]; rewrite append_cons in H; congruence].
Qed.

Lemma index_cons (t : string) (b : ascii) (s : string) :
  String.index 0 t (String b s) =
  if String.prefix t (String b s) then Some 0%nat
  else S <$> String.index 0 t s.
Proof. simpl. by destruct (String.index 0 t s). Qed.

Lemma index_substring (t s : string) :
  is_Some (String.index 0 t s) <-> substring_of t s.
Proof.
  unfold substring_of. split.
  - induction s as [|b s IH].
    + destruct t; intros [n H]; [| discriminate H].
      by exists EmptyString, EmptyString.
    + rewrite index_cons. destruct (String.prefix t (String b s)) eqn:Hp.
      * intros _. apply prefix_app in Hp as [post ->].
        by exists EmptyString, post.
      * destruct (String.index 0 t s) as [n|].
        -- intros _. destruct IH as (pre & post & ->); [by eexists |].
           by exists (String b pre), post.
        -- intros [m H]. discriminate H.
  - intros (pre & post & ->). induction pre as [|a pre IH].
    + rewrite append_nil. destruct (t +:+ post) as [|b r] eqn:E.
      * destruct t; [by eexists | discriminate E].
      * rewrite index_cons.
        assert (String.prefix t (String b r) = true) as ->; [| by eexists].
        apply prefix_app. by exists post.
    + rewrite append_cons, index_cons.
      destruct (String.prefix t (String a (pre +:+ t +:+ post))); [by eexists |].
      destruct IH as [n ->]. by eexists.
Qed.

(** [contains s t] decides that [t] occurs in [s]. *)
Lemma contains_substring (s t : string) :
  contains s t = true <-> substring_of t s.
Proof.
  unfold contains, find. rewrite bool_decide_eq_true. apply index_substring.
Qed.

Lemma strstr_substring (haystack needle : string) :
  strstr haystack needle = true <-> substring_of needle haystack.
Proof.
  unfold strstr. rewrite bool_decide_eq_true. apply index_substring.
Qed.

Lemma front_empty : front EmptyString <> "#"%char.
Proof. discriminate. Qed.

End TextFacts.

(** ** The registry *)

Section RegistryFacts.

Implicit Types (this c : ConsolePtr) (st : Process) (f : CommandFunction).

Lemma registerCommand_twice_map this (s : string) f f' (m : gmap positive Impl) :
  alter (fun i => set_commands_ (<[s := f]> (commands_ i)) i) this
    (alter (fun i => set_commands_ (<[s := f']> (commands_ i)) i) this m)
  = alter (fun i => set_commands_ (<[s := f]> (commands_ i)) i) this m.
Proof.
  apply map_eq; intros c. destruct (decide (this = c)) as [->|Hne].
  - rewrite !lookup_alter_eq. destruct (m !! c) as [i|]; [simpl | done].
    unfold set_commands_; simpl. by rewrite insert_insert_eq.
  - by rewrite !lookup_alter_ne.
Qed.

Lemma find_command_registerCommand_ne this (s other : string) f st :
  other <> s ->
  find_command this other (registerCommand this s f st) = find_command this other st.
Proof.
  intros Hne. unfold find_command, registerCommand; simpl.
  rewrite lookup_alter_eq. destruct (consoles st !! this) as [i|]; [simpl | done].
  by rewrite lookup_insert_ne.
Qed.

Lemma registerCommand_alive this (s : string) f c st :
  alive c st -> alive c (registerCommand this s f st).
Proof.
  unfold alive, registerCommand; simpl. rewrite lookup_alter.
  case_decide; [subst | done]. intros [i ->]. by eexists.
Qed.

(** C8.  Registering [(handler, hints)] under [name] in a live console
    and then looking [name] up gives back exactly that handler and those
    hints, whatever the name is (no name is refused, the empty one
    included); a second registration under the same name leaves the
    process exactly as if only the later one had been made. *)
Theorem register_then_lookup this (name : string) (handler : CommandHandler)
    (hints : list string) st :
  alive this st ->
  find_command this name (registerCommand this name (handler, hints) st)
    = Some (handler, hints)
  /\ (forall earlier : CommandFunction,
        registerCommand this name (handler, hints)
          (registerCommand this name earlier st)
        = registerCommand this name (handler, hints) st)
  /\ alive this (registerCommand this name (handler, hints) st).
Proof.
  intros Halive. split; [| split].
  - destruct Halive as [i Hi]. unfold find_command, registerCommand; simpl.
    rewrite lookup_alter_eq, Hi; simpl. apply lookup_insert_eq.
  - intros earlier. unfold registerCommand at 1 3. unfold set_consoles; simpl.
    by rewrite registerCommand_twice_map.
  - by apply registerCommand_alive.
Qed.

Lemma register_then_lookup_witness :
  find_command Demo.X EmptyString
    (registerCommand Demo.X EmptyString Demo.mode Demo.two_consoles)
  = Some Demo.mode.
Proof.
  apply (register_then_lookup Demo.X EmptyString (fst Demo.mode) (snd Demo.mode)
           Demo.two_consoles).
  unfold alive. vm_compute. by eexists.
Defined.

End RegistryFacts.

(** ** Reservation *)

Section ReservationFacts.

Implicit Types (c d : ConsolePtr) (st : Process) (line : string).

Lemma reserveConsole_current c st :
  currentConsole st = Some c -> reserveConsole c st = st.
Proof. intros H. unfold reserveConsole. by rewrite bool_decide_eq_true_2. Qed.

Lemma currentConsole_reserveConsole c st :
  currentConsole (reserveConsole c st) = Some c.
Proof.
  unfold reserveConsole. by case_bool_decide.
Qed.

Lemma historyHandle_saveState_ne c d st :
  c <> d -> historyHandle c (saveState d st) = historyHandle c st.
Proof.
  intros Hne. unfold historyHandle, saveState; simpl.
  by rewrite lookup_alter_ne.
Qed.

Lemma historyHandle_saveState c st :
  alive c st -> historyHandle c (saveState c st) = Some (the_history st).
Proof.
  intros [i Hi]. unfold historyHandle, saveState; simpl.
  by rewrite lookup_alter_eq, Hi.
Qed.

(** Reserving [c] makes [c]'s own history the live one. *)
Lemma the_history_reserveConsole c st :
  the_history (reserveConsole c st) = history_of c st.
Proof.
  unfold reserveConsole, history_of. case_bool_decide as Hc; [done |].
  fold (historyHandle c
          match currentConsole st with Some other => saveState other st | None => st end).
  destruct (currentConsole st) as [other|] eqn:Hcur.
  - rewrite historyHandle_saveState_ne by congruence.
    by destruct (historyHandle c st).
  - by destruct (historyHandle c st).
Qed.

(** The console that loses the engine keeps the live history in its handle. *)
Lemma historyHandle_reserveConsole_previous c d st :
  currentConsole st = Some d -> c <> d -> alive d st ->
  historyHandle d (reserveConsole c st) = Some (the_history st).
Proof.
  intros Hcur Hne Hd. unfold reserveConsole.
  rewrite bool_decide_eq_false_2 by congruence. rewrite Hcur.
  fold (historyHandle c (saveState d st)).
  rewrite <- (historyHandle_saveState d st Hd).
  by destruct (historyHandle c (saveState d st)).
Qed.

Lemma historyHandle_reserveConsole_other c d st :
  currentConsole st <> Some d ->
  historyHandle d (reserveConsole c st) = historyHandle d st.
Proof.
  intros Hd. unfold reserveConsole. case_bool_decide as Hc; [done |].
  destruct (currentConsole st) as [other|] eqn:Hcur.
  - fold (historyHandle c (saveState other st)).
    rewrite <- (historyHandle_saveState_ne d other st) by congruence.
    by destruct (historyHandle c (saveState other st)).
  - fold (historyHandle c st). by destruct (historyHandle c st).
Qed.

Lemma emptyHistory_reserveConsole c st :
  emptyHistory (reserveConsole c st) = emptyHistory st.
Proof.
  unfold reserveConsole. case_bool_decide; [done |].
  by destruct (currentConsole st); simpl;
    match goal with |- context [match ?o with _ => _ end] => destruct o end.
Qed.

Lemma alive_reserveConsole c d st : alive d st -> alive d (reserveConsole c st).
Proof.
  unfold alive, reserveConsole. case_bool_decide; [done |]. intros [i Hi].
  assert (forall e, is_Some (consoles (saveState e st) !! d)) as Hsave.
  { intros e. unfold saveState; simpl. destruct (decide (e = d)) as [->|He].
    - rewrite lookup_alter_eq, Hi. by eexists.
    - rewrite lookup_alter_ne, Hi by done. by eexists. }
  destruct (currentConsole st) as [other|]; simpl;
    match goal with |- context [match ?o with _ => _ end] => destruct o end;
    simpl; first [apply Hsave | by eexists].
Qed.

(** Every other live console keeps its history across a reservation:
    the single live history is checkpointed, never lost. *)
Lemma history_of_reserveConsole_other c d st :
  d <> c -> alive d st -> history_of d (reserveConsole c st) = history_of d st.
Proof.
  intros Hne Hd. unfold history_of at 1.
  rewrite currentConsole_reserveConsole, bool_decide_eq_false_2 by congruence.
  rewrite emptyHistory_reserveConsole. unfold history_of.
  case_bool_decide as Hcur.
  - by rewrite (historyHandle_reserveConsole_previous c d st).
  - by rewrite historyHandle_reserveConsole_other.
Qed.

Lemma history_of_add_history_current c line st :
  currentConsole st = Some c ->
  history_of c (add_history line st) = history_of c st ++ [line].
Proof. intros H. unfold history_of; simpl. by rewrite !bool_decide_eq_true_2. Qed.

Lemma history_of_add_history_other c line st :
  currentConsole st <> Some c ->
  history_of c (add_history line st) = history_of c st.
Proof. intros H. unfold history_of; simpl. by rewrite !bool_decide_eq_false_2. Qed.

End ReservationFacts.

(** C1.  Two distinct live consoles [X] and Y, neither with any history
    yet.  After [X] is reserved and records [h1], [h2], then Y is reserved
    and records [h3], then [X] is reserved again: [X] is current, the live
    history of the engine is exactly [h1; h2], the handle of Y holds
    exactly [h3], and these are the histories of [X] and of Y.  Reserving
    the console that is already current returns the process unchanged. *)
Theorem reservation_isolation (X Y : ConsolePtr) (h1 h2 h3 : string) (st : Process) :
  X <> Y -> alive X st -> alive Y st ->
  history_of X st = [] -> history_of Y st = [] ->
  currentConsole (X_again X Y h1 h2 h3 st) = Some X
  /\ the_history (X_again X Y h1 h2 h3 st) = [h1; h2]
  /\ historyHandle Y (X_again X Y h1 h2 h3 st) = Some [h3]
  /\ history_of X (X_again X Y h1 h2 h3 st) = [h1; h2]
  /\ history_of Y (X_again X Y h1 h2 h3 st) = [h3]
  /\ (forall c s, currentConsole s = Some c -> reserveConsole c s = s).
Proof.
  intros Hne HX HY HhX HhY.
  assert (the_history (X_recorded X h1 h2 st) = [h1; h2]) as HliveX.
  { unfold X_recorded; simpl. by rewrite the_history_reserveConsole, HhX. }
  assert (currentConsole (X_recorded X h1 h2 st) = Some X) as HcurX.
  { unfold X_recorded; simpl. apply currentConsole_reserveConsole. }
  assert (alive X (X_recorded X h1 h2 st) /\ alive Y (X_recorded X h1 h2 st))
    as [HaX HaY].
  { split; by apply (alive_reserveConsole X). }
  assert (history_of Y (X_recorded X h1 h2 st) = []) as HhY1.
  { unfold X_recorded.
    rewrite !history_of_add_history_other; simpl;
      rewrite ?currentConsole_reserveConsole; try congruence.
    by rewrite history_of_reserveConsole_other. }
  assert (the_history (Y_recorded X Y h1 h2 h3 st) = [h3]) as HliveY.
  { unfold Y_recorded; simpl. by rewrite the_history_reserveConsole, HhY1. }
  assert (currentConsole (Y_recorded X Y h1 h2 h3 st) = Some Y) as HcurY.
  { unfold Y_recorded; simpl. apply currentConsole_reserveConsole. }
  assert (historyHandle X (Y_recorded X Y h1 h2 h3 st) = Some [h1; h2]) as HsavedX.
  { unfold Y_recorded.
    change (historyHandle X (add_history h3 ?s)) with (historyHandle X s).
    rewrite (historyHandle_reserveConsole_previous Y X) by done.
    by rewrite HliveX. }
  assert (alive Y (Y_recorded X Y h1 h2 h3 st)) as HaY2.
  { by apply (alive_reserveConsole Y). }
  assert (the_history (X_again X Y h1 h2 h3 st) = [h1; h2]) as Hlive.
  { unfold X_again. rewrite the_history_reserveConsole. unfold history_of.
    rewrite HcurY, bool_decide_eq_false_2 by congruence.
    by rewrite HsavedX. }
  assert (historyHandle Y (X_again X Y h1 h2 h3 st) = Some [h3]) as HsavedY.
  { unfold X_again.
    rewrite (historyHandle_reserveConsole_previous X Y) by done.
    by rewrite HliveY. }
  assert (currentConsole (X_again X Y h1 h2 h3 st) = Some X) as Hcur.
  { apply currentConsole_reserveConsole. }
  repeat split; try done.
  - unfold history_of. by rewrite Hcur, bool_decide_eq_true_2.
  - unfold history_of. rewrite Hcur, bool_decide_eq_false_2 by congruence.
    by rewrite HsavedY.
  - apply reserveConsole_current.
Qed.

Lemma reservation_isolation_witness :
  the_history (X_again Demo.X Demo.Y "h1" "h2" "h3" Demo.two_consoles) = ["h1"; "h2"]%string
  /\ historyHandle Demo.Y (X_again Demo.X Demo.Y "h1" "h2" "h3" Demo.two_consoles)
     = Some ["h3"%string].
Proof.
  destruct (reservation_isolation Demo.X Demo.Y "h1" "h2" "h3" Demo.two_consoles)
    as (_ & Hlive & Hsaved & _).
  - discriminate.
  - unfold alive. vm_compute. by eexists.
  - unfold alive. vm_compute. by eexists.
  - reflexivity.
  - reflexivity.
  - by split.
Defined.

(** ** The dispatcher *)

Section DispatchFacts.

Variable Quit : Z.

Implicit Types (this : ConsolePtr) (st : Process) (fuel : nat).

Local Open Scope string_scope.

(** A line gives no token exactly when all its characters are white space. *)
Lemma extract_nil (word s : string) :
  Text.extract word s = [] <->
  word = EmptyString /\ Forall (fun c => Text.isspace c = true) (list_ascii_of_string s).
Proof.
  revert word. induction s as [|c s IH]; intros word; simpl.
  - destruct word; split; try done. by intros [? _].
  - destruct (Text.isspace c) eqn:Hc.
    + destruct word.
      * rewrite IH. split; intros [? H]; split; try done.
        -- by constructor.
        -- by inversion H.
      * split; [done | by intros [? _]].
    + rewrite IH. split.
      * intros [H _]. by destruct word.
      * intros [_ H]. inversion H; congruence.
Qed.

Lemma istream_words_nil (s : string) :
  Text.istream_words s = [] <->
  Forall (fun c => Text.isspace c = true) (list_ascii_of_string s).
Proof. unfold Text.istream_words. rewrite extract_nil. by split; [intros [_ ?] | split]. Qed.

Lemma substring_of_middle (pre t post : string) :
  Text.substring_of t (pre +:+ t +:+ post).
Proof. by exists pre, post. Qed.

(** C7.  When the first token of the line is not a registered name,
    [executeCommand] returns [Error] and writes to [std::cout] one
    diagnostic, which contains that token; when the line has no token
    at all, it returns [Ok] and leaves the process, its output included,
    as it was. *)
Theorem execute_unregistered_or_blank fuel this (rawLine : string) st :
  (forall name rest,
      Text.istream_words rawLine = name :: rest ->
      find_command this name st = None ->
      exists diagnostic,
        executeCommand Quit fuel this rawLine st = Some (Error, print diagnostic st)
        /\ cout (print diagnostic st) = cout st +:+ diagnostic
        /\ diagnostic = "Command '" +:+ name +:+ "' not found." +:+ endl
        /\ Text.substring_of name diagnostic)
  /\ (Text.istream_words rawLine = [] ->
      executeCommand Quit fuel this rawLine st = Some (Ok, st)).
Proof.
  split.
  - intros name rest Hwords Hfind. eexists. split; [| split; [| split]].
    + unfold executeCommand, dispatch. by rewrite Hwords, Hfind.
    + done.
    + done.
    + apply substring_of_middle.
  - intros Hwords. unfold executeCommand, dispatch. by rewrite Hwords.
Qed.

(** C2, as the code has it.  Dispatching a line whose only token names
    the [run] lambda returns the code 1 after writing the usage line; 1
    is not [Ok], it is the value of [Error], and no file is opened (no
    fuel is needed: the script runner is not entered). *)
Theorem run_usage_error fuel this (captured : ConsolePtr) (name : string)
    (hints : list string) (rawLine : string) st :
  Text.istream_words rawLine = [name] ->
  find_command this name st = Some (lambda_run captured, hints) ->
  executeCommand Quit fuel this rawLine st
    = Some (1, print ("Usage: " +:+ name +:+ " script_filename" +:+ endl) st)
  /\ 1 <> Ok /\ 1 = Error
  /\ opened (print ("Usage: " +:+ name +:+ " script_filename" +:+ endl) st) = opened st.
Proof.
  intros Hwords Hfind. split; [| by repeat split].
  unfold executeCommand, dispatch. by rewrite Hwords, Hfind.
Qed.

End DispatchFacts.

Lemma run_usage_error_witness :
  executeCommand Demo.Quit 0 Demo.X "run" Demo.two_consoles
  = Some (1, print ("Usage: run script_filename" +:+ endl)%string Demo.two_consoles).
Proof.
  apply (run_usage_error Demo.Quit 0 Demo.X Demo.X "run" [Demo.COMPLETE_FILE] "run"
           Demo.two_consoles); reflexivity.
Defined.

Lemma execute_unregistered_or_blank_witness :
  executeCommand Demo.Quit 0 Demo.X "   " Demo.two_consoles = Some (Ok, Demo.two_consoles)
  /\ exists diagnostic,
       executeCommand Demo.Quit 0 Demo.X " frobnicate now" Demo.two_consoles
       = Some (Error, print diagnostic Demo.two_consoles)
       /\ Text.substring_of "frobnicate" diagnostic.
Proof.
  split.
  - apply (execute_unregistered_or_blank Demo.Quit 0 Demo.X "   " Demo.two_consoles).
    reflexivity.
  - destruct (execute_unregistered_or_blank Demo.Quit 0 Demo.X " frobnicate now"
                Demo.two_consoles) as [Hnf _].
    destruct (Hnf "frobnicate"%string ["now"%string]) as (d & He & _ & _ & Hs);
      [reflexivity | reflexivity |].
    by exists d.
Defined.

(** C2 as stated fails: on a console fresh from its constructor the line
    [run] is answered with the very value of [Error]. *)
Lemma run_usage_code_is_Error :
  ~ usage_error_is_distinct Demo.Quit 0 Demo.X "run" Demo.two_consoles.
Proof.
  intros H.
  assert (executeCommand Demo.Quit 0 Demo.X "run" Demo.two_consoles
          = Some (Error, print ("Usage: run script_filename" +:+ endl)%string
                           Demo.two_consoles)) as Hrun by reflexivity.
  destruct (H _ _ Hrun) as (_ & Hdistinct & _).
  by apply Hdistinct.
Qed.

(** ** The script runner *)

Section ScriptFacts.

Variable Quit : Z.

Implicit Types (this : ConsolePtr) (st : Process) (fuel : nat)
  (lines more : list string) (line : string) (counter result : Z).

(** [executeFile] with a file that opens is the loop over its lines,
    started at sequence number 0, one level of fuel down. *)
Lemma executeFile_opened fuel this (filename : string) lines st :
  files st filename = Some lines ->
  executeFile Quit (S fuel) this filename st
  = script_loop (executeCommand Quit fuel this) lines 0 (open_ifstream filename st).
Proof. intros H. simpl. by rewrite H. Qed.

Lemma executeFile_missing fuel this (filename : string) st :
  files st filename = None ->
  executeFile Quit (S fuel) this filename st
  = Some (Error, print ("Could not find the specified file to execute." +:+ endl)%string
                   (open_ifstream filename st)).
Proof. intros H. simpl. by rewrite H. Qed.

Section Loop.

(** The loop, for any dispatcher. *)
Variable exec : string -> Call.

Lemma script_loop_comment line more counter st :
  is_comment line = true ->
  script_loop exec (line :: more) counter st = script_loop exec more counter st.
Proof. unfold is_comment. intros H. simpl. by rewrite H. Qed.

Lemma script_loop_stop line more counter st result st' :
  is_comment line = false ->
  exec line (print (echo counter line) st) = Some (result, st') ->
  result <> Ok ->
  script_loop exec (line :: more) counter st = Some (result, st').
Proof.
  unfold is_comment, echo, Ok. intros Hc He Hr. simpl. rewrite Hc, He.
  by rewrite (proj2 (Z.eqb_neq result 0) Hr).
Qed.

Lemma script_loop_continue line more counter st st' :
  is_comment line = false ->
  exec line (print (echo counter line) st) = Some (Ok, st') ->
  script_loop exec (line :: more) counter st
  = script_loop exec more (counter + 1) (print endl st').
Proof. unfold is_comment, echo, Ok. intros Hc He. simpl. by rewrite Hc, He. Qed.

(** Comment lines could as well not be in the file. *)
Lemma script_loop_without_comments lines counter st :
  script_loop exec lines counter st
  = script_loop exec (filter (fun l => is_comment l = false) lines) counter st.
Proof.
  revert counter st. induction lines as [|line more IH]; intros counter st; [done |].
  rewrite filter_cons. destruct (is_comment line) eqn:Hc.
  - rewrite decide_False by done. by rewrite script_loop_comment.
  - rewrite decide_True by done. unfold is_comment in Hc. simpl. rewrite Hc.
    destruct (exec line _) as [[result st'] |]; [| done].
    by destruct (result =? 0).
Qed.

(** A result other than [Ok] is the result of dispatching one of the
    lines, and the runner returns in the state that dispatch left. *)
Lemma script_loop_failure lines counter st result st' :
  script_loop exec lines counter st = Some (result, st') ->
  result <> Ok ->
  exists pre line post s,
    lines = pre ++ line :: post /\ is_comment line = false
    /\ exec line s = Some (result, st').
Proof.
  revert counter st. induction lines as [|line more IH]; intros counter st H Hr.
  - simpl in H. congruence.
  - destruct (is_comment line) eqn:Hc.
    + rewrite script_loop_comment in H by done.
      destruct (IH _ _ H Hr) as (pre & l & post & s & -> & ? & ?).
      by exists (line :: pre), l, post, s.
    + pose proof Hc as Hc'. unfold is_comment in Hc'. simpl in H. rewrite Hc' in H.
      destruct (exec line _) as [[r s1] |] eqn:He; [| done].
      destruct (r =? 0) eqn:Hz.
      * destruct (IH _ _ H Hr) as (pre & l & post & s & -> & ? & ?).
        by exists (line :: pre), l, post, s.
      * injection H as -> ->. by exists [], line, more, (print (echo counter line) st).
Qed.

(** The loop returns whenever every dispatch does. *)
Lemma script_loop_returns lines counter st :
  (forall line s, line ∈ lines -> is_Some (exec line s)) ->
  is_Some (script_loop exec lines counter st).
Proof.
  revert counter st. induction lines as [|line more IH]; intros counter st H.
  - by eexists.
  - simpl. assert (forall l s, l ∈ more -> is_Some (exec l s)) as H'.
    { intros l s Hl. apply H. by right. }
    destruct (Ascii.eqb _ _); [by apply IH |].
    destruct (H line (print (echo counter line) st)) as [[r s1] He]; [by left |].
    unfold echo in He. rewrite He. destruct (r =? 0); [by apply IH | by eexists].
Qed.

End Loop.

(** *** Fuel only bounds the nesting of scripts *)

Lemma invoke_mono (ef1 ef2 : ConsolePtr -> string -> Call) (f : CommandHandler)
    (input0 : string) (rest : list string) :
  (forall this filename, call_le (ef1 this filename) (ef2 this filename)) ->
  call_le (invoke Quit ef1 f input0 rest) (invoke Quit ef2 f input0 rest).
Proof.
  intros Hef st r. destruct f as [c | c | | g]; simpl; try done.
  destruct rest as [|filename rest]; [done |]. apply Hef.
Qed.

Lemma dispatch_mono (ef1 ef2 : ConsolePtr -> string -> Call) this (command : string) :
  (forall c filename, call_le (ef1 c filename) (ef2 c filename)) ->
  call_le (dispatch Quit ef1 this command) (dispatch Quit ef2 this command).
Proof.
  intros Hef st r. unfold dispatch.
  destruct (Text.istream_words command) as [|input0 rest]; [done |].
  destruct (find_command this input0 st) as [[f hints] |]; [| done].
  by apply invoke_mono.
Qed.

Lemma script_loop_mono (exec1 exec2 : string -> Call) lines counter :
  (forall command, call_le (exec1 command) (exec2 command)) ->
  call_le (script_loop exec1 lines counter) (script_loop exec2 lines counter).
Proof.
  intros Hexec. revert counter.
  induction lines as [|line more IH]; intros counter st r; [done |].
  simpl. destruct (Ascii.eqb _ _); [apply IH |].
  destruct (exec1 line _) as [[result st1] |] eqn:He; [| done].
  rewrite (Hexec _ _ _ He). destruct (result =? 0); [apply IH | done].
Qed.

(** A result obtained with some fuel is obtained with any larger fuel. *)
Lemma executeFile_fuel_S fuel this (filename : string) :
  call_le (executeFile Quit fuel this filename) (executeFile Quit (S fuel) this filename).
Proof.
  revert this filename. induction fuel as [|fuel IH]; intros this filename st r; [done |].
  intros H. cbn [executeFile] in H |- *.
  destruct (files (open_ifstream filename st) filename) as [lines |]; [| done].
  revert H. apply script_loop_mono. intros command.
  apply dispatch_mono. intros c f. apply IH.
Qed.

Lemma executeCommand_fuel_le fuel fuel' this (command : string) :
  (fuel <= fuel')%nat ->
  call_le (executeCommand Quit fuel this command) (executeCommand Quit fuel' this command).
Proof.
  induction 1 as [|fuel' _ IH]; [by intros st r |].
  intros st r H. specialize (IH st r H). revert IH.
  apply dispatch_mono. intros c f. apply executeFile_fuel_S.
Qed.

(** C6.  For the loop of [executeFile] over the real dispatcher: a line
    whose first character is [#] changes nothing (no echo, no dispatch,
    same sequence number), so that a script runs as if its comment lines
    were not there; any other line is first echoed with the current
    sequence number and then dispatched; if that dispatch returns a code
    other than [Ok] the runner returns this code in the state the
    dispatch left, whatever lines follow, and [Quit] is such a code once
    it differs from [Ok]; if it returns [Ok] the runner goes on with the
    next number; at the end of the file it returns [Ok].  A code other
    than [Ok] is always the code of one dispatched line, and the runner
    returns whenever each dispatch does. *)
Theorem script_runner fuel this :
  let exec := executeCommand Quit fuel this in
  (forall line more counter st,
      is_comment line = true ->
      script_loop exec (line :: more) counter st = script_loop exec more counter st)
  /\ (forall lines counter st,
      script_loop exec lines counter st
      = script_loop exec (filter (fun l => is_comment l = false) lines) counter st)
  /\ (forall line more counter st result st',
      is_comment line = false ->
      exec line (print (echo counter line) st) = Some (result, st') ->
      result <> Ok ->
      script_loop exec (line :: more) counter st = Some (result, st'))
  /\ (forall line more counter st name rest hints,
      is_comment line = false ->
      Text.istream_words line = name :: rest ->
      find_command this name (print (echo counter line) st) = Some (lambda_quit, hints) ->
      Quit <> Ok ->
      script_loop exec (line :: more) counter st
      = Some (Quit, print (echo counter line) st))
  /\ (forall line more counter st st',
      is_comment line = false ->
      exec line (print (echo counter line) st) = Some (Ok, st') ->
      script_loop exec (line :: more) counter st
      = script_loop exec more (counter + 1) (print endl st'))
  /\ (forall counter st, script_loop exec [] counter st = Some (Ok, st))
  /\ (forall lines counter st result st',
      script_loop exec lines counter st = Some (result, st') ->
      result <> Ok ->
      exists pre line post s,
        lines = pre ++ line :: post /\ is_comment line = false
        /\ exec line s = Some (result, st'))
  /\ (forall lines counter st,
      (forall line s, line ∈ lines -> is_Some (exec line s)) ->
      is_Some (script_loop exec lines counter st))
  /\ (forall (filename : string) lines st,
      files st filename = Some lines ->
      executeFile Quit (S fuel) this filename st
      = script_loop exec lines 0 (open_ifstream filename st)).
Proof.
  intros exec. repeat split.
  - apply script_loop_comment.
  - apply script_loop_without_comments.
  - apply script_loop_stop.
  - intros line more counter st name rest hints Hc Hwords Hfind HQ.
    apply script_loop_stop; [done | | done].
    unfold exec, executeCommand, dispatch. by rewrite Hwords, Hfind.
  - apply script_loop_continue.
  - apply script_loop_failure.
  - apply script_loop_returns.
  - apply executeFile_opened.
Qed.

End ScriptFacts.

(** The script of the specification's example: the listing is line 0,
    the comment is skipped, [quit] is line 1 and ends the run with [Quit];
    the line after it is not reached. *)
Example run_script_example :
  (fun r => (r.1, cout r.2, opened r.2))
    <$> executeCommand Demo.Quit 1 Demo.X "run script" Demo.X_current
  = Some (Demo.Quit,
          ("[0] help" +:+ endl +:+ "Available commands are:" +:+ endl
           +:+ tab +:+ "exit" +:+ endl +:+ tab +:+ "quit" +:+ endl
           +:+ tab +:+ "run" +:+ endl +:+ tab +:+ "help" +:+ endl +:+ endl
           +:+ "[1] quit" +:+ endl)%string,
          ["script"%string]).
Proof. vm_compute. reflexivity. Qed.

(** With an empty second line: it is echoed as line 1 and [quit] is line 2. *)
Example run_spaced_script_example :
  (fun r => (r.1, cout r.2))
    <$> executeCommand Demo.Quit 1 Demo.X "run spaced" Demo.X_current
  = Some (Demo.Quit,
          ("[0] help" +:+ endl +:+ "Available commands are:" +:+ endl
           +:+ tab +:+ "exit" +:+ endl +:+ tab +:+ "quit" +:+ endl
           +:+ tab +:+ "run" +:+ endl +:+ tab +:+ "help" +:+ endl +:+ endl
           +:+ "[1] " +:+ endl +:+ endl
           +:+ "[2] quit" +:+ endl)%string).
Proof. vm_compute. reflexivity. Qed.

(** A missing file and a missing fuel. *)
Example run_missing_file_example :
  (fun r => (r.1, cout r.2, opened r.2))
    <$> executeCommand Demo.Quit 1 Demo.X "run nowhere" Demo.X_current
  = Some (Error,
          ("Could not find the specified file to execute." +:+ endl)%string,
          ["nowhere"%string]).
Proof. vm_compute. reflexivity. Qed.

Lemma script_runner_witness :
  script_loop (executeCommand Demo.Quit 0 Demo.X) ["quit"; "help"]%string 7 Demo.X_current
  = Some (Demo.Quit, print (echo 7 "quit") Demo.X_current).
Proof.
  destruct (script_runner Demo.Quit 0 Demo.X) as (_ & _ & _ & Hquit & _).
  apply (Hquit "quit"%string ["help"%string] 7 Demo.X_current "quit"%string [] []);
    [reflexivity | reflexivity | reflexivity | discriminate].
Defined.

(** ** Dispatching does not touch the reservation state *)

Section FrameFacts.

Variable Quit : Z.

Implicit Types (this c d : ConsolePtr) (st : Process) (fuel : nat).

Lemma kept_refl st : kept st st.
Proof. by repeat split. Qed.

Lemma kept_trans st1 st2 st3 : kept st1 st2 -> kept st2 st3 -> kept st1 st3.
Proof.
  intros (? & ? & ? & ? & ?) (? & ? & ? & ? & ?). repeat split; congruence.
Qed.

Lemma kept_print (s : string) st : kept st (print s st).
Proof. by repeat split. Qed.

Lemma kept_open_ifstream (filename : string) st : kept st (open_ifstream filename st).
Proof. by repeat split. Qed.

Lemma kept_foldl_print (g : string -> string) (l : list string) st :
  kept st (foldl (fun st x => print (g x) st) st l).
Proof.
  revert st. induction l as [|x l IH]; intros st; [apply kept_refl |].
  simpl. eapply kept_trans; [apply (kept_print (g x)) | apply IH].
Qed.

Lemma keeps_invoke (ef : ConsolePtr -> string -> Call) (f : CommandHandler)
    (input0 : string) (rest : list string) :
  (forall c filename, keeps (ef c filename)) ->
  keeps (invoke Quit ef f input0 rest).
Proof.
  intros Hef st code st'. destruct f as [c | c | | g]; simpl.
  - intros [= <- <-]. eapply kept_trans; [apply kept_print |].
    apply (kept_foldl_print (fun command => (tab +:+ command +:+ endl)%string)).
  - destruct rest as [|filename rest]; [| apply Hef].
    intros [= <- <-]. apply kept_print.
  - intros [= <- <-]. apply kept_refl.
  - destruct (g (input0 :: rest)) as [r text]. intros [= <- <-]. apply kept_print.
Qed.

Lemma keeps_dispatch (ef : ConsolePtr -> string -> Call) this (command : string) :
  (forall c filename, keeps (ef c filename)) ->
  keeps (dispatch Quit ef this command).
Proof.
  intros Hef st code st'. unfold dispatch.
  destruct (Text.istream_words command) as [|input0 rest].
  - intros [= <- <-]. apply kept_refl.
  - destruct (find_command this input0 st) as [[f hints] |].
    + by apply keeps_invoke.
    + intros [= <- <-]. apply kept_print.
Qed.

Lemma keeps_script_loop (exec : string -> Call) (lines : list string) (counter : Z) :
  (forall command, keeps (exec command)) ->
  keeps (script_loop exec lines counter).
Proof.
  intros Hexec. revert counter.
  induction lines as [|line more IH]; intros counter st code st'; simpl.
  - intros [= <- <-]. apply kept_refl.
  - destruct (Ascii.eqb _ _); [apply IH |].
    destruct (exec line _) as [[result st1] |] eqn:He; [| done].
    apply Hexec in He.
    assert (kept st st1) as Hst1.
    { eapply kept_trans; [apply kept_print | exact He]. }
    destruct (result =? 0).
    + intros H. apply IH in H. eapply kept_trans; [exact Hst1 |].
      eapply kept_trans; [apply (kept_print endl) | exact H].
    + by intros [= <- <-].
Qed.

Lemma keeps_executeFile fuel this (filename : string) :
  keeps (executeFile Quit fuel this filename).
Proof.
  revert this filename. induction fuel as [|fuel IH]; intros this filename st code st';
    [done |].
  cbn [executeFile].
  destruct (files (open_ifstream filename st) filename) as [lines |].
  - intros H. apply keeps_script_loop in H.
    + eapply kept_trans; [apply (kept_open_ifstream filename) | exact H].
    + intros command. by apply keeps_dispatch.
  - intros [= <- <-]. eapply kept_trans; [apply (kept_open_ifstream filename) |].
    apply kept_print.
Qed.

Lemma keeps_executeCommand fuel this (command : string) :
  keeps (executeCommand Quit fuel this command).
Proof. apply keeps_dispatch. intros c filename. apply keeps_executeFile. Qed.

Lemma history_of_kept c st st' : kept st st' -> history_of c st' = history_of c st.
Proof.
  intros (Hcur & Hlive & Hempty & Hconsoles & _).
  unfold history_of, historyHandle. by rewrite Hcur, Hlive, Hempty, Hconsoles.
Qed.

Lemma alive_kept c st st' : kept st st' -> alive c st -> alive c st'.
Proof. intros (_ & _ & _ & Hconsoles & _). unfold alive. by rewrite Hconsoles. Qed.

(** A line read by [readLine] lands in the history of the reading
    console and in no other. *)
Lemma readLine_records fuel this (line : string) st code st' :
  line <> EmptyString ->
  readLine Quit fuel this (Some line) st = Some (code, st') ->
  currentConsole st' = Some this
  /\ history_of this st' = history_of this st ++ [line]
  /\ (forall d, d <> this -> alive d st -> history_of d st' = history_of d st)
  /\ (forall d, alive d st -> alive d st').
Proof.
  intros Hline. unfold readLine. destruct line as [|a line]; [done |].
  intros H. apply keeps_executeCommand in H.
  set (s1 := reserveConsole this st) in *.
  assert (currentConsole (add_history (String a line) s1) = Some this) as Hcur.
  { apply currentConsole_reserveConsole. }
  split; [| split; [| split]].
  - destruct H as (-> & _). exact Hcur.
  - rewrite (history_of_kept _ _ _ H).
    rewrite history_of_add_history_current by apply currentConsole_reserveConsole.
    f_equal. unfold s1, history_of at 1.
    rewrite currentConsole_reserveConsole, bool_decide_eq_true_2 by done.
    apply the_history_reserveConsole.
  - intros d Hd Halive. rewrite (history_of_kept _ _ _ H).
    rewrite history_of_add_history_other
      by (unfold s1; rewrite currentConsole_reserveConsole; congruence).
    by apply history_of_reserveConsole_other.
  - intros d Halive. apply (alive_kept _ _ _ H).
    by apply (alive_reserveConsole this).
Qed.

(** X15.  The isolation of C1 when the entries are recorded by [readLine]
    itself, for lines whose commands are built-in ones or host handlers
    that only print and return a code (the handlers of this development):
    whatever those commands print and return, [X] finds [h1; h2] and Y has
    [h3]. *)
Lemma readLine_isolation fuel (X Y : ConsolePtr) (h1 h2 h3 : string)
    st code1 st1 code2 st2 code3 st3 :
  X <> Y -> alive X st -> alive Y st ->
  history_of X st = [] -> history_of Y st = [] ->
  h1 <> EmptyString -> h2 <> EmptyString -> h3 <> EmptyString ->
  readLine Quit fuel X (Some h1) st = Some (code1, st1) ->
  readLine Quit fuel X (Some h2) st1 = Some (code2, st2) ->
  readLine Quit fuel Y (Some h3) st2 = Some (code3, st3) ->
  the_history (reserveConsole X st3) = [h1; h2]
  /\ history_of Y (reserveConsole X st3) = [h3].
Proof.
  intros Hne HaX HaY HX HY H1 H2 H3 R1 R2 R3.
  destruct (readLine_records _ _ _ _ _ _ H1 R1) as (_ & HX1 & Ho1 & Ha1).
  destruct (readLine_records _ _ _ _ _ _ H2 R2) as (_ & HX2 & Ho2 & Ha2).
  destruct (readLine_records _ _ _ _ _ _ H3 R3) as (_ & HY3 & Ho3 & Ha3).
  split.
  - rewrite the_history_reserveConsole, Ho3, HX2, HX1, HX by auto. done.
  - rewrite history_of_reserveConsole_other by auto.
    rewrite HY3, Ho2, Ho1, HY by auto. done.
Qed.

End FrameFacts.

(** ** Completion *)

Section CompletionFacts.

Variable COMPLETE_FILE : string.

Implicit Types (st : Process) (cur : ConsolePtr) (text line argName : string)
  (k n it : nat) (F rest names hints : list string).

Lemma head_drop_lookup {A} (l : list A) k : head (drop k l) = l !! k.
Proof. by rewrite head_lookup, lookup_drop, Nat.add_0_r. Qed.

Lemma tail_drop_S {A} (l : list A) k : tail (drop k l) = drop (S k) l.
Proof.
  replace (S k) with (k + 1)%nat by lia. rewrite <- drop_drop.
  by destruct (drop k l).
Qed.

(** A generator that answers its [k]-th call with the [k]-th element of
    [F], and keeps what this needs, gives [F] over successive calls and
    [nullptr] from then on. *)
Lemma calls_from_enumerate (gen : entry_function) text F
    (Inv : nat -> Process -> Prop) :
  (forall k st, Inv k st ->
     exists st', gen text (Z.of_nat k) st = (Returns (F !! k), st') /\ Inv (S k) st') ->
  forall n k st, Inv k st ->
    (calls_from (Z.of_nat k) n text gen st).1 = (fun j => Returns (F !! j)) <$> seq k n.
Proof.
  intros Hstep n. induction n as [|n IH]; intros k st HI; [done |].
  simpl. destruct (Hstep k st HI) as (st' & -> & HI').
  specialize (IH (S k) st' HI').
  replace (Z.of_nat k + 1) with (Z.of_nat (S k)) by lia.
  destruct (calls_from (Z.of_nat (S k)) n text gen st') as [rs st''].
  simpl in *. by rewrite IH.
Qed.

(** After the matches come only [nullptr]s. *)
Lemma enumerate_all {A B} (g : option A -> B) (F : list A) n :
  (fun j => g (F !! j)) <$> seq 0 (length F + n)
  = ((fun x => g (Some x)) <$> F) ++ replicate n (g None).
Proof.
  rewrite seq_app, fmap_app. f_equal.
  - apply list_eq; intros i. rewrite !list_lookup_fmap.
    destruct (decide (i < length F)%nat) as [Hi|Hi].
    + rewrite lookup_seq_lt by done. simpl.
      by destruct (lookup_lt_is_Some_2 F i Hi) as [x ->].
    + rewrite lookup_seq_ge by lia. by rewrite lookup_ge_None_2 by lia.
  - apply list_eq; intros i. rewrite list_lookup_fmap.
    destruct (decide (i < n)%nat) as [Hi|Hi].
    + rewrite lookup_seq_lt by done. simpl.
      rewrite lookup_replicate_2 by done. by rewrite lookup_ge_None_2 by lia.
    + rewrite lookup_seq_ge by lia. symmetry. apply lookup_replicate_None. lia.
Qed.

(** *** Command names *)

Lemma commandIterator_loop_scan text rest it :
  exists d,
    commandIterator_loop text rest it
    = (head (filter (fun c => Text.contains c text = true) rest), (it + d)%nat)
    /\ filter (fun c => Text.contains c text = true) (drop d rest)
       = tail (filter (fun c => Text.contains c text = true) rest).
Proof.
  revert it. induction rest as [|c rest IH]; intros it.
  - exists 0%nat. by rewrite Nat.add_0_r.
  - simpl. rewrite filter_cons. destruct (Text.contains c text) eqn:Hc.
    + exists 1%nat. rewrite decide_True by done. by rewrite Nat.add_1_r.
    + destruct (IH (S it)) as (d & -> & Hd). exists (S d).
      rewrite decide_False by done. by rewrite Nat.add_succ_r.
Qed.

Lemma commandIterator_step cur names text k st :
  commandIterator_inv cur names text k st ->
  exists st',
    commandIterator text (Z.of_nat k) st
    = (Returns (filter (fun c => Text.contains c text = true) names !! k), st')
    /\ commandIterator_inv cur names text (S k) st'.
Proof.
  intros (Hcur & Hnames & Hit). unfold commandIterator. rewrite Hcur, Hnames.
  set (it0 := if Z.of_nat k =? 0 then 0%nat else commandIterator_it st).
  assert (filter (fun c => Text.contains c text = true) (drop it0 names)
          = drop k (filter (fun c => Text.contains c text = true) names)) as Hinv.
  { unfold it0. destruct k as [|k]; [done |].
    destruct Hit as [? | Hit]; [done |].
    by rewrite (proj2 (Z.eqb_neq _ 0)) by lia. }
  destruct (commandIterator_loop_scan text (drop it0 names) it0) as (d & -> & Hd).
  eexists. split.
  - by rewrite Hinv, head_drop_lookup.
  - split; [done |]. split; [done |]. right. simpl.
    by rewrite <- drop_drop, Hd, Hinv, tail_drop_S.
Qed.

(** *** Argument hints *)

Lemma argumentIterator_loop_scan line argName rest it :
  exists d,
    argumentIterator_loop line argName rest it
    = (head (filter (offered line argName) rest), (it + d)%nat)
    /\ filter (offered line argName) (drop d rest)
       = tail (filter (offered line argName) rest).
Proof.
  revert it. induction rest as [|h rest IH]; intros it.
  - exists 0%nat. by rewrite Nat.add_0_r.
  - simpl. rewrite filter_cons.
    destruct (Text.strstr line h) eqn:Hs.
    + destruct (IH (S it)) as (d & -> & Hd). exists (S d).
      rewrite decide_False by (intros [? _]; congruence).
      by rewrite Nat.add_succ_r.
    + destruct (Text.contains h argName) eqn:Hc.
      * exists 1%nat. rewrite decide_True by done. by rewrite Nat.add_1_r.
      * destruct (IH (S it)) as (d & -> & Hd). exists (S d).
        rewrite decide_False by (intros [_ ?]; congruence).
        by rewrite Nat.add_succ_r.
Qed.

Lemma argumentIterator_step cur line commandName more f first hints text k st :
  first <> COMPLETE_FILE ->
  argumentIterator_inv cur line commandName more f first hints k st ->
  exists st',
    argumentIterator COMPLETE_FILE text (Z.of_nat k) st
    = (Returns (filter (offered line (argName_of (commandName :: more))) hints !! k), st')
    /\ argumentIterator_inv cur line commandName more f first hints (S k) st'.
Proof.
  intros Hfirst (Hcur & Hline & Hwords & Hcmd & Hit).
  unfold argumentIterator. rewrite Hcur, Hline, Hwords. cbn [lookup list_lookup].
  rewrite Hcmd. cbn [lookup list_lookup].
  rewrite (proj2 (String.eqb_neq first COMPLETE_FILE) Hfirst).
  cbn [argumentIterator_it set_rl_attempted_completion_over rl_line_buffer].
  rewrite Hline.
  change (default EmptyString (more !! 0%nat)) with (argName_of (commandName :: more)).
  pose (argName := argName_of (commandName :: more)).
  set (it0 := if Z.of_nat k =? 0 then 0%nat else argumentIterator_it st).
  assert (filter (offered line argName) (drop (S it0) (first :: hints))
          = drop k (filter (offered line argName) hints)) as Hinv.
  { unfold it0. destruct k as [|k]; [done |].
    destruct Hit as [? | Hit]; [done |].
    by rewrite (proj2 (Z.eqb_neq _ 0)) by lia. }
  subst argName.
  destruct (argumentIterator_loop_scan line (argName_of (commandName :: more))
              (drop (S it0) (first :: hints)) it0) as (d & -> & Hd).
  eexists. split.
  - by rewrite Hinv, head_drop_lookup.
  - split; [done |]. split; [done |]. split; [done |]. split.
    + unfold commands_of in *. simpl. done.
    + right. cbn [argumentIterator_it set_argumentIterator_it].
      replace (S (it0 + d)) with (S it0 + d)%nat by lia.
      by rewrite <- drop_drop, Hd, Hinv, tail_drop_S.
Qed.

Lemma calls_from_unchanged (gen : entry_function) text st (r : outcome (option string)) :
  (forall state, gen text state st = (r, st)) ->
  forall n state, calls_from state n text gen st = (replicate n r, st).
Proof.
  intros Hgen n. induction n as [|n IH]; intros state; [done |].
  simpl. by rewrite Hgen, IH.
Qed.

Lemma elem_of_command_names (commands : gmap string CommandFunction) (name : string) :
  name ∈ command_names commands <-> is_Some (commands !! name).
Proof.
  unfold command_names. rewrite list_elem_of_fmap. split.
  - intros ([n f] & -> & H). apply elem_of_map_to_list in H. by eexists.
  - intros [f H]. exists (name, f). split; [done |]. by apply elem_of_map_to_list.
Qed.

Lemma argumentIterator_no_console text (state : Z) st :
  currentConsole st = None ->
  argumentIterator COMPLETE_FILE text state st = (Returns None, st).
Proof. intros H. unfold argumentIterator. by rewrite H. Qed.

(** [params.at(0)] on a command registered without hints. *)
Lemma argumentIterator_empty_hints text (state : Z) st cur commandName more f :
  currentConsole st = Some cur ->
  Text.istream_words (rl_line_buffer st) = commandName :: more ->
  commands_of cur st !! commandName = Some (f, []) ->
  argumentIterator COMPLETE_FILE text state st = (Throws out_of_range, st).
Proof.
  intros Hcur Hwords Hcmd. unfold argumentIterator.
  rewrite Hcur, Hwords. cbn [lookup list_lookup]. by rewrite Hcmd.
Qed.

(** [results.at(0)] on a line buffer without a token. *)
Lemma argumentIterator_blank_line text (state : Z) st cur :
  currentConsole st = Some cur ->
  Text.istream_words (rl_line_buffer st) = [] ->
  argumentIterator COMPLETE_FILE text state st = (Throws out_of_range, st).
Proof. intros Hcur Hwords. unfold argumentIterator. by rewrite Hcur, Hwords. Qed.

(** The generator never looks at the text readline hands it: the
    argument it matches is read off the line buffer. *)
Lemma argumentIterator_ignores_text text text' (state : Z) st :
  argumentIterator COMPLETE_FILE text state st
  = argumentIterator COMPLETE_FILE text' state st.
Proof. reflexivity. Qed.

(** A session of a generator that does not look at the text is the same
    for every text. *)
Lemma calls_from_ignores_text (gen : entry_function) text text' :
  (forall state st, gen text state st = gen text' state st) ->
  forall n state st, calls_from state n text gen st = calls_from state n text' gen st.
Proof.
  intros Hgen n. induction n as [|n IH]; intros state st; [done |].
  simpl. rewrite Hgen. destruct (gen text' state st) as [r st1]. by rewrite IH.
Qed.

End CompletionFacts.

Section CompletionTheorems.

Variable COMPLETE_FILE : string.

Implicit Types (st : Process) (cur : ConsolePtr) (text : string) (n : nat).

(** C5.  Completion on the first word (offset 0) calls [commandIterator].
    With a current console, call number [k] of a session returns the
    [k]-th registered name, in the map's order, that contains [text]
    anywhere, and [nullptr] once there is none left: the names returned
    are exactly the registered names that contain [text], each once,
    and the call after the last of them gives [nullptr].  On the
    registry [{help, exit}] the text [e] gives both names, on [{quit}]
    none.  Without a current console every call returns [nullptr]. *)
Theorem command_names_enumerated :
  (forall text st cur n (_end : Z),
      currentConsole st = Some cur ->
      let matches :=
        filter (fun name => Text.contains name text = true)
          (command_names (commands_of cur st)) in
      (getCommandCompletions COMPLETE_FILE (successive_calls n) text 0 _end st).1
        = (fun k => Returns (matches !! k)) <$> seq 0 n
      /\ (successive_calls (length matches + 1) text commandIterator st).1
         = ((fun name => Returns (Some name)) <$> matches) ++ [Returns None]
      /\ NoDup matches
      /\ (forall name,
            name ∈ matches <->
            is_Some (commands_of cur st !! name) /\ Text.substring_of text name))
  /\ (exists a b,
        (successive_calls 3 "e" commandIterator
           (Demo.with_registry ["help"; "exit"]%string)).1
          = [Returns (Some a); Returns (Some b); Returns None]
        /\ [a; b] ≡ₚ ["help"; "exit"]%string)
  /\ (successive_calls 1 "e" commandIterator (Demo.with_registry ["quit"%string])).1
     = [Returns None]
  /\ (forall text (state : Z) st,
        currentConsole st = None ->
        commandIterator text state st = (Returns None, st)).
Proof.
  split; [| split; [| split]].
  - intros text st cur n _end Hcur matches.
    assert (forall m, (successive_calls m text commandIterator st).1
                      = (fun k => Returns (matches !! k)) <$> seq 0 m) as Hcalls.
    { intros m. unfold successive_calls.
      apply (calls_from_enumerate commandIterator text matches
               (commandIterator_inv cur (command_names (commands_of cur st)) text)
               (fun k s => commandIterator_step cur _ text k s) m 0%nat st).
      split; [done |]. split; [done |]. by left. }
    split; [apply Hcalls |]. split; [| split].
    + rewrite Hcalls. apply (enumerate_all Returns matches 1).
    + apply NoDup_filter, NoDup_fst_map_to_list.
    + intros name. unfold matches.
      rewrite list_elem_of_filter, elem_of_command_names.
      rewrite TextFacts.contains_substring. tauto.
  - exists "exit"%string, "help"%string. split; [by vm_compute |]. apply perm_swap.
  - by vm_compute.
  - intros text state st H. unfold commandIterator. by rewrite H.
Qed.

(** C3, as the code has it.  The current console has registered
    [commandName], the first token of the line buffer, with hints
    [first :: hints], and [first] is not the filesystem sentinel.  Then
    completion past the first word calls [argumentIterator], and call
    number [k] of a session returns the [k]-th of the hints after [first]
    that do not occur in the line buffer and that contain the second
    token of the line buffer (the empty text when the line holds the
    command name only), and [nullptr] once there is none left.  The hints
    returned are exactly those among [hints] that pass both tests;
    [first] itself is never looked at, and neither is the text handed in
    for completion: the session is the same for every text. *)
Theorem argument_hints_enumerated text st cur (commandName : string)
    (more : list string) (f : CommandHandler) (first : string) (hints : list string)
    n (start _end : Z) :
  currentConsole st = Some cur ->
  Text.istream_words (rl_line_buffer st) = commandName :: more ->
  commands_of cur st !! commandName = Some (f, first :: hints) ->
  first <> COMPLETE_FILE ->
  start <> 0 ->
  let matches :=
    filter (offered (rl_line_buffer st) (argName_of (commandName :: more))) hints in
  (getCommandCompletions COMPLETE_FILE (successive_calls n) text start _end st).1
    = (fun k => Returns (matches !! k)) <$> seq 0 n
  /\ (successive_calls (length matches + 1) text (argumentIterator COMPLETE_FILE) st).1
     = ((fun hint => Returns (Some hint)) <$> matches) ++ [Returns None]
  /\ (forall hint,
        hint ∈ matches <->
        hint ∈ hints
        /\ ~ Text.substring_of hint (rl_line_buffer st)
        /\ Text.substring_of (argName_of (commandName :: more)) hint)
  /\ (forall text',
        successive_calls n text' (argumentIterator COMPLETE_FILE) st
        = successive_calls n text (argumentIterator COMPLETE_FILE) st).
Proof.
  intros Hcur Hwords Hcmd Hfirst Hstart matches.
  assert (forall m, (successive_calls m text (argumentIterator COMPLETE_FILE) st).1
                    = (fun k => Returns (matches !! k)) <$> seq 0 m) as Hcalls.
  { intros m. unfold successive_calls.
    apply (calls_from_enumerate (argumentIterator COMPLETE_FILE) text matches
             (argumentIterator_inv cur (rl_line_buffer st) commandName more f first hints)
             (fun k s => argumentIterator_step COMPLETE_FILE cur _ _ _ _ _ _ text k s Hfirst)
             m 0%nat st).
    split; [done |]. split; [done |]. split; [done |]. split; [done |]. by left. }
  split; [| split; [| split]].
  - unfold getCommandCompletions. rewrite (proj2 (Z.eqb_neq start 0) Hstart).
    apply Hcalls.
  - rewrite Hcalls. apply (enumerate_all Returns matches 1).
  - intros hint. unfold matches, offered. rewrite list_elem_of_filter.
    rewrite <- (TextFacts.strstr_substring (rl_line_buffer st) hint).
    rewrite TextFacts.contains_substring.
    destruct (Text.strstr (rl_line_buffer st) hint); intuition congruence.
  - intros text'. unfold successive_calls.
    by apply calls_from_ignores_text.
Qed.

(** C4.  When the command on the line is registered with the filesystem
    sentinel as its first hint, [argumentIterator] returns [nullptr] and
    leaves the process as it was, whatever the text and the number of
    the call; a session past the first word gives nothing but
    [nullptr]. *)
Theorem sentinel_yields_no_matches text st cur (commandName : string)
    (more : list string) (f : CommandHandler) (hints : list string) :
  currentConsole st = Some cur ->
  Text.istream_words (rl_line_buffer st) = commandName :: more ->
  commands_of cur st !! commandName = Some (f, COMPLETE_FILE :: hints) ->
  (forall state : Z,
      argumentIterator COMPLETE_FILE text state st = (Returns None, st))
  /\ (forall n (start _end : Z), start <> 0 ->
      getCommandCompletions COMPLETE_FILE (successive_calls n) text start _end st
      = (replicate n (Returns None), st)).
Proof.
  intros Hcur Hwords Hcmd.
  assert (forall state : Z,
             argumentIterator COMPLETE_FILE text state st = (Returns None, st)) as Hone.
  { intros state. unfold argumentIterator.
    rewrite Hcur, Hwords. cbn [lookup list_lookup]. rewrite Hcmd.
    cbn [lookup list_lookup]. by rewrite String.eqb_refl. }
  split; [done |]. intros n start _end Hstart.
  unfold getCommandCompletions. rewrite (proj2 (Z.eqb_neq start 0) Hstart).
  by apply calls_from_unchanged.
Qed.

End CompletionTheorems.

Lemma command_names_enumerated_witness :
  (getCommandCompletions Demo.COMPLETE_FILE (successive_calls 4) "u" 0 1 Demo.X_current).1
  = [Returns (Some "quit"); Returns (Some "run"); Returns None; Returns None]%string.
Proof.
  destruct (command_names_enumerated Demo.COMPLETE_FILE) as [Hgeneral _].
  destruct (Hgeneral "u"%string Demo.X_current Demo.X 4%nat 1) as [Hcalls _];
    [reflexivity |].
  exact Hcalls.
Defined.

Lemma argument_hints_enumerated_witness :
  (getCommandCompletions Demo.COMPLETE_FILE (successive_calls 3) "s" 7 8
     More.typing_third_word).1
  = [Returns (Some "unsafe"); Returns None; Returns None]%string.
Proof.
  destruct (argument_hints_enumerated Demo.COMPLETE_FILE "s" More.typing_third_word Demo.X
              "mode" ["u"; "s"]%string Demo.mode.1 "--" ["fast"; "safe"; "unsafe"]%string
              3%nat 7 8) as [Hcalls _];
    [reflexivity | reflexivity | reflexivity | discriminate | discriminate |].
  exact Hcalls.
Defined.

(** C3 as stated fails: with [mode u s] on the line and completion asked
    for the last word, [s], the first call returns [unsafe], matched
    against the earlier word [u], where the hints that contain [s] and are
    not on the line start with [fast]. *)
Lemma argument_hints_ignore_typed_text :
  ~ offers_hints_containing_text Demo.COMPLETE_FILE "s"
      ["fast"; "safe"; "unsafe"]%string 1 More.typing_third_word.
Proof.
  unfold offers_hints_containing_text. intros H. vm_compute in H. discriminate H.
Qed.

Lemma sentinel_yields_no_matches_witness :
  getCommandCompletions Demo.COMPLETE_FILE (successive_calls 2) "sc" 4 6
    (set_rl_line_buffer "run sc" Demo.X_current)
  = ([Returns None; Returns None], set_rl_line_buffer "run sc" Demo.X_current).
Proof.
  destruct (sentinel_yields_no_matches Demo.COMPLETE_FILE "sc"
              (set_rl_line_buffer "run sc" Demo.X_current) Demo.X
              "run" ["sc"%string] (lambda_run Demo.X) []) as [_ Hsession];
    [reflexivity | reflexivity | reflexivity |].
  apply (Hsession 2%nat 4 6). discriminate.
Defined.

(** C9, on the code.  With a console fresh from its constructor owning
    the engine, completing an argument of [help], [quit] or [exit] does
    not return: [params.at(0)] throws [std::out_of_range], whatever the
    text and the number of the call. *)
Theorem builtin_without_hints_throws (text : string) (state : Z) :
  Forall
    (fun line =>
       argumentIterator Demo.COMPLETE_FILE text state (set_rl_line_buffer line Demo.X_current)
       = (Throws out_of_range, set_rl_line_buffer line Demo.X_current))
    ["help "; "quit "; "exit "]%string.
Proof.
  repeat constructor;
    by apply (argumentIterator_empty_hints Demo.COMPLETE_FILE text state _ Demo.X _ []
                lambda_quit)
    || by apply (argumentIterator_empty_hints Demo.COMPLETE_FILE text state _ Demo.X _ []
                   (lambda_help Demo.X)).
Qed.

(** * Further properties of the code *)

(** ** Tokens (Console.cpp:127-133, 206-208) *)

Section TokenFacts.

Import Text.

Implicit Types (s a b w word : string) (c : ascii) (ws : list string).

Lemma append_assoc a b s : (a +:+ b) +:+ s = a +:+ (b +:+ s).
Proof.
  induction a as [|x a IH]; [done |].
  by rewrite !TextFacts.append_cons, IH.
Qed.

Lemma append_empty_r a : a +:+ EmptyString = a.
Proof. induction a as [|x a IH]; [done |]. by rewrite TextFacts.append_cons, IH. Qed.

Lemma append_snoc word c s :
  (word +:+ String c EmptyString) +:+ s = word +:+ String c s.
Proof. by rewrite append_assoc. Qed.

Lemma list_ascii_of_append a b :
  list_ascii_of_string (a +:+ b) = list_ascii_of_string a ++ list_ascii_of_string b.
Proof.
  induction a as [|x a IH]; [done |].
  rewrite TextFacts.append_cons. simpl. by rewrite IH.
Qed.

Lemma append_not_empty word c : word +:+ String c EmptyString <> EmptyString.
Proof. by destruct word. Qed.

Lemma whitespace_free_snoc word c :
  whitespace_free word -> isspace c = false ->
  whitespace_free (word +:+ String c EmptyString).
Proof.
  unfold whitespace_free. intros Hw Hc. rewrite list_ascii_of_append.
  apply Forall_app. split; [done |]. by repeat constructor.
Qed.

Lemma extract_tokens word s w :
  whitespace_free word -> w ∈ extract word s -> is_token w.
Proof.
  revert word. induction s as [|c s IH]; intros word Hword; simpl.
  - destruct word as [|x word]; [by intros ?%elem_of_nil |].
    intros ->%list_elem_of_singleton. by split.
  - destruct (isspace c) eqn:Hc.
    + destruct word as [|x word].
      * by apply IH.
      * intros [-> | Hw]%elem_of_cons; [by split |].
        revert Hw. apply IH. constructor.
    + apply IH. by apply whitespace_free_snoc.
Qed.

(** Reading on from [word] over [a], a white space and [b]: the tokens of
    the first part, then those of [b]. *)
Lemma extract_app_space word a c b :
  isspace c = true ->
  extract word (a +:+ String c b) = extract word a ++ extract EmptyString b.
Proof.
  intros Hc. revert word. induction a as [|x a IH]; intros word.
  - rewrite TextFacts.append_nil. simpl. rewrite Hc. by destruct word.
  - rewrite TextFacts.append_cons. simpl. destruct (isspace x).
    + destruct word; by rewrite IH.
    + apply IH.
Qed.

Lemma extract_whitespace_free word w :
  whitespace_free w ->
  extract word w
  = match word +:+ w with EmptyString => [] | token => [token] end.
Proof.
  revert word. induction w as [|c w IH]; intros word Hw.
  - simpl. rewrite append_empty_r. by destruct word.
  - inversion Hw as [|? ? Hc Hw']; subst. simpl. rewrite Hc.
    rewrite IH by done. by rewrite append_snoc.
Qed.

(** X1.  Every token [executeCommand] and [argumentIterator] cut out of a
    line is non-empty and free of white space: a handler never sees an
    empty argument, and a command registered under the empty name or a
    name with a blank in it is never looked up. *)
Theorem istream_words_are_tokens s w :
  w ∈ istream_words s -> is_token w.
Proof. apply extract_tokens. constructor. Qed.

Lemma istream_words_are_tokens_witness : is_token "now".
Proof.
  apply (istream_words_are_tokens "  do it  now "). vm_compute.
  apply list_elem_of_In. simpl. auto.
Defined.

(** X2.  A white space character splits a line: the tokens of
    [a c b] are the tokens of [a] followed by the tokens of [b],
    whichever of space, tab, newline, vertical tab, form feed or carriage
    return [c] is; so leading, trailing and repeated white space never
    changes what is dispatched. *)
Theorem istream_words_split a c b :
  isspace c = true ->
  istream_words (a +:+ String c b) = istream_words a ++ istream_words b.
Proof. apply extract_app_space. Qed.

Lemma istream_words_split_witness :
  istream_words ("run  " +:+ String (ascii_of_nat 9) " script ")
  = istream_words "run  " ++ istream_words " script ".
Proof. apply (istream_words_split "run  " (ascii_of_nat 9) " script "). reflexivity. Defined.

(** X3.  Tokens written out with a space after each are read back as
    they were: the dispatcher hands a handler exactly the words typed. *)
Theorem istream_words_unwords ws :
  Forall is_token ws -> istream_words (unwords ws) = ws.
Proof.
  induction 1 as [|w ws [Hne Hfree] _ IH]; [done |].
  cbn [unwords foldr]. fold (unwords ws).
  unfold istream_words. rewrite extract_app_space by done.
  fold (istream_words (unwords ws)). rewrite IH.
  rewrite extract_whitespace_free by done. rewrite TextFacts.append_nil.
  by destruct w.
Qed.

Lemma istream_words_unwords_witness :
  istream_words (unwords ["mode"; "safe"]%string) = ["mode"; "safe"]%string.
Proof.
  apply (istream_words_unwords ["mode"; "safe"]%string).
  repeat constructor; discriminate.
Defined.

End TokenFacts.

(** ** Construction and registration (Console.cpp:49-91, 117-123) *)

Section RegistryMore.

Variable Quit : Z.
Variable COMPLETE_FILE : string.

Implicit Types (this other c : ConsolePtr) (st : Process) (fuel : nat)
  (name s line : string) (f : CommandFunction).

Lemma elem_of_getRegisteredCommands this name st :
  name ∈ getRegisteredCommands this st <-> is_Some (find_command this name st).
Proof.
  unfold getRegisteredCommands, find_command.
  destruct (consoles st !! this) as [i|]; simpl.
  - apply elem_of_command_names.
  - split; [by intros ?%elem_of_nil | by intros [? ?]].
Qed.

Lemma NoDup_getRegisteredCommands this st : NoDup (getRegisteredCommands this st).
Proof.
  unfold getRegisteredCommands. destruct (consoles st !! this); [| constructor].
  apply NoDup_fst_map_to_list.
Qed.

Lemma find_command_registerCommand_eq this s f st :
  alive this st -> find_command this s (registerCommand this s f st) = Some f.
Proof.
  intros [i Hi]. unfold find_command, registerCommand; simpl.
  rewrite lookup_alter_eq, Hi; simpl. apply lookup_insert_eq.
Qed.

Lemma consoles_registerCommand_ne this other s f st :
  other <> this -> consoles (registerCommand this s f st) !! other = consoles st !! other.
Proof. intros Hne. unfold registerCommand; simpl. by rewrite lookup_alter_ne. Qed.

(** X4.  Registering a host handler under [name] and then dispatching a
    line whose first token is [name] calls that handler with all the
    tokens of the line, the name included, writes what it prints and
    returns its code as it is; this holds for the names of the built-in
    commands too, which a registration replaces. *)
Theorem register_then_dispatch fuel this name (rest hints : list string) line
    (g : Arguments -> Z * string) st :
  alive this st ->
  Text.istream_words line = name :: rest ->
  executeCommand Quit fuel this line
    (registerCommand this name (host_function g, hints) st)
  = Some ((g (name :: rest)).1,
          print (g (name :: rest)).2
            (registerCommand this name (host_function g, hints) st)).
Proof.
  intros Halive Hwords. unfold executeCommand, dispatch. rewrite Hwords.
  rewrite find_command_registerCommand_eq by done. simpl.
  by destruct (g (name :: rest)).
Qed.

(** X5.  A registration in one console is invisible in every other: the
    commands and names of another console stay as they were, and so do
    the current console, the live history and every history handle. *)
Theorem registerCommand_other_console this other s f st :
  other <> this ->
  (forall name,
      find_command other name (registerCommand this s f st)
      = find_command other name st)
  /\ getRegisteredCommands other (registerCommand this s f st)
     = getRegisteredCommands other st
  /\ currentConsole (registerCommand this s f st) = currentConsole st
  /\ the_history (registerCommand this s f st) = the_history st
  /\ (forall c, historyHandle c (registerCommand this s f st) = historyHandle c st).
Proof.
  intros Hne. split; [| split; [| split; [| split]]]; try done.
  - intros name. unfold find_command.
    by rewrite consoles_registerCommand_ne.
  - unfold getRegisteredCommands. by rewrite consoles_registerCommand_ne.
  - intros c. unfold historyHandle, registerCommand; simpl.
    rewrite lookup_alter. case_decide; [subst | done].
    by destruct (consoles st !! c).
Qed.

(** X6.  After a registration under [s] the names of the console are the
    old names and [s], each listed once: a new name makes the list one
    longer, a name already there leaves the set of names as it was. *)
Theorem getRegisteredCommands_registerCommand this s f st :
  alive this st ->
  NoDup (getRegisteredCommands this (registerCommand this s f st))
  /\ (forall name,
        name ∈ getRegisteredCommands this (registerCommand this s f st)
        <-> name = s \/ name ∈ getRegisteredCommands this st)
  /\ (s ∉ getRegisteredCommands this st ->
      getRegisteredCommands this (registerCommand this s f st)
      ≡ₚ s :: getRegisteredCommands this st)
  /\ (s ∈ getRegisteredCommands this st ->
      getRegisteredCommands this (registerCommand this s f st)
      ≡ₚ getRegisteredCommands this st).
Proof.
  intros Halive.
  assert (forall name,
             name ∈ getRegisteredCommands this (registerCommand this s f st)
             <-> name = s \/ name ∈ getRegisteredCommands this st) as Hmem.
  { intros name. rewrite !elem_of_getRegisteredCommands.
    destruct (decide (name = s)) as [->|Hne].
    - rewrite find_command_registerCommand_eq by done. split; [by left | by eexists].
    - rewrite find_command_registerCommand_ne by done. split; [by right |].
      by intros [? | ?]. }
  split; [apply NoDup_getRegisteredCommands |]. split; [exact Hmem |]. split.
  - intros Hnew. apply NoDup_Permutation.
    + apply NoDup_getRegisteredCommands.
    + constructor; [done | apply NoDup_getRegisteredCommands].
    + intros name. rewrite Hmem, elem_of_cons. done.
  - intros Hold. apply NoDup_Permutation; try apply NoDup_getRegisteredCommands.
    intros name. rewrite Hmem. split; [| by right].
    by intros [-> | ?].
Qed.

(** X7.  A console fresh from its constructor has exactly the four
    commands [help], [run], [quit] and [exit], [run] with the filesystem
    sentinel as its only hint and the others without hints, the greeting
    it was given and no saved history; constructing it hooks the
    completion callback and neither reserves the engine nor touches any
    other console. *)
Theorem Console_new_builtins this (greeting : string) st :
  getRegisteredCommands this (Console_new COMPLETE_FILE this greeting st)
    ≡ₚ ["help"; "run"; "quit"; "exit"]%string
  /\ find_command this "help" (Console_new COMPLETE_FILE this greeting st)
     = Some (lambda_help this, [])
  /\ find_command this "run" (Console_new COMPLETE_FILE this greeting st)
     = Some (lambda_run this, [COMPLETE_FILE])
  /\ find_command this "quit" (Console_new COMPLETE_FILE this greeting st)
     = Some (lambda_quit, [])
  /\ find_command this "exit" (Console_new COMPLETE_FILE this greeting st)
     = Some (lambda_quit, [])
  /\ getGreeting this (Console_new COMPLETE_FILE this greeting st) = greeting
  /\ historyHandle this (Console_new COMPLETE_FILE this greeting st) = None
  /\ rl_attempted_completion_function (Console_new COMPLETE_FILE this greeting st) = true
  /\ currentConsole (Console_new COMPLETE_FILE this greeting st) = currentConsole st
  /\ the_history (Console_new COMPLETE_FILE this greeting st) = the_history st
  /\ (forall other, other <> this ->
        consoles (Console_new COMPLETE_FILE this greeting st) !! other
        = consoles st !! other).
Proof.
  assert (consoles (Console_new COMPLETE_FILE this greeting st) !! this
          = Some (mkImpl greeting (builtin_commands COMPLETE_FILE this) None)) as Hthis.
  { unfold Console_new; simpl. apply lookup_insert_eq. }
  repeat split; try done.
  - unfold getRegisteredCommands. rewrite Hthis. simpl.
    apply NoDup_Permutation.
    + apply NoDup_fst_map_to_list.
    + compute_done.
    + intros name. rewrite elem_of_command_names. unfold builtin_commands.
      rewrite !elem_of_cons, elem_of_nil.
      rewrite !lookup_insert_is_Some, lookup_empty.
      pose proof (@is_Some_None CommandFunction). intuition congruence.
  - unfold find_command. rewrite Hthis. by vm_compute.
  - unfold find_command. rewrite Hthis. by vm_compute.
  - unfold find_command. rewrite Hthis. by vm_compute.
  - unfold find_command. rewrite Hthis. by vm_compute.
  - unfold getGreeting. by rewrite Hthis.
  - unfold historyHandle. by rewrite Hthis.
  - intros other Hne. unfold Console_new; simpl. by rewrite lookup_insert_ne.
Qed.

End RegistryMore.

Lemma register_then_dispatch_witness :
  (fun r => (r.1, cout r.2))
    <$> executeCommand Demo.Quit 0 Demo.X " quit  now"
          (registerCommand Demo.X "quit"
             (host_function (fun args => (7, "staying")), []) Demo.two_consoles)
  = Some (7, "staying"%string).
Proof.
  rewrite (register_then_dispatch Demo.Quit 0 Demo.X "quit" ["now"%string] []
             " quit  now" (fun args => (7, "staying"%string)) Demo.two_consoles).
  - reflexivity.
  - unfold alive. vm_compute. by eexists.
  - reflexivity.
Defined.

Lemma registerCommand_other_console_witness :
  getRegisteredCommands Demo.Y (registerCommand Demo.X "mode" Demo.mode Demo.two_consoles)
  = getRegisteredCommands Demo.Y Demo.two_consoles.
Proof.
  destruct (registerCommand_other_console Demo.X Demo.Y "mode" Demo.mode
              Demo.two_consoles) as (_ & Hnames & _); [discriminate |].
  exact Hnames.
Defined.

Lemma getRegisteredCommands_registerCommand_witness :
  getRegisteredCommands Demo.X (registerCommand Demo.X "mode" Demo.mode Demo.two_consoles)
  ≡ₚ "mode"%string :: getRegisteredCommands Demo.X Demo.two_consoles.
Proof.
  destruct (getRegisteredCommands_registerCommand Demo.X "mode" Demo.mode
              Demo.two_consoles) as (_ & _ & Hnew & _).
  - unfold alive. vm_compute. by eexists.
  - apply Hnew. vm_compute. intros H. apply list_elem_of_In in H. simpl in H.
    repeat destruct H as [H | H]; try discriminate H. exact H.
Defined.

(** ** Built-in handlers and scripts (Console.cpp:56-77, 125-166) *)

Section DispatchMore.

Variable Quit : Z.

Implicit Types (this captured c : ConsolePtr) (st : Process) (fuel : nat)
  (name line filename path : string) (lines : list string).

Lemma print_print (a b : string) st : print b (print a st) = print (a +:+ b) st.
Proof. unfold print; simpl. by rewrite append_assoc. Qed.

Lemma foldl_print_names (commands : list string) (header : string) st :
  foldl (fun st command => print (tab +:+ command +:+ endl) st) (print header st) commands
  = print (header +:+ foldr (fun command text => tab +:+ command +:+ endl +:+ text)
                        EmptyString commands) st.
Proof.
  revert header. induction commands as [|command commands IH]; intros header; simpl.
  - by rewrite append_empty_r.
  - rewrite print_print, IH. by rewrite !append_assoc.
Qed.

Lemma find_command_print name (s : string) this st :
  find_command this name (print s st) = find_command this name st.
Proof. done. Qed.

(** X8.  Dispatching a line whose first token names the [help] lambda
    writes the header and then one line per registered name of the
    console that owns the lambda, each name once, in the order of the
    map, and returns [Ok]; further tokens on the line and the registries
    of other consoles play no part. *)
Theorem help_lists_registered fuel this captured name (rest hints : list string) line st :
  Text.istream_words line = name :: rest ->
  find_command this name st = Some (lambda_help captured, hints) ->
  executeCommand Quit fuel this line st
    = Some (Ok, print (help_listing (getRegisteredCommands captured st)) st)
  /\ NoDup (getRegisteredCommands captured st)
  /\ (forall command,
        command ∈ getRegisteredCommands captured st
        <-> is_Some (find_command captured command st)).
Proof.
  intros Hwords Hfind. split; [| split].
  - unfold executeCommand, dispatch. rewrite Hwords, Hfind. simpl.
    by rewrite foldl_print_names.
  - apply NoDup_getRegisteredCommands.
  - intros command. apply elem_of_getRegisteredCommands.
Qed.

(** X10.  [run] with the name of a file that cannot be opened writes the
    diagnostic and returns [Error]; the file is the second token, and the
    tokens after it are ignored. *)
Theorem run_missing_file fuel this captured name filename (rest hints : list string)
    line st :
  Text.istream_words line = name :: filename :: rest ->
  find_command this name st = Some (lambda_run captured, hints) ->
  files st filename = None ->
  executeCommand Quit (S fuel) this line st
  = Some (Error,
          print ("Could not find the specified file to execute." +:+ endl)%string
            (open_ifstream filename st))
  /\ opened (open_ifstream filename st) = opened st ++ [filename].
Proof.
  intros Hwords Hfind Hfile. split; [| done].
  unfold executeCommand, dispatch. rewrite Hwords, Hfind. simpl.
  by rewrite Hfile.
Qed.


(** X9.  [setGreeting] then [getGreeting] on a live console gives the
    greeting back; the greeting of every other console, and all commands
    and histories, are as before. *)
Theorem getGreeting_setGreeting this (greeting : string) st :
  alive this st ->
  getGreeting this (setGreeting this greeting st) = greeting
  /\ (forall c, c <> this ->
        getGreeting c (setGreeting this greeting st) = getGreeting c st)
  /\ (forall c name,
        find_command c name (setGreeting this greeting st) = find_command c name st)
  /\ (forall c, history_of c (setGreeting this greeting st) = history_of c st).
Proof.
  intros [i Hi]. split; [| split; [| split]].
  - unfold getGreeting, setGreeting; simpl. by rewrite lookup_alter_eq, Hi.
  - intros c Hne. unfold getGreeting, setGreeting; simpl. by rewrite lookup_alter_ne.
  - intros c name. unfold find_command, setGreeting; simpl.
    rewrite lookup_alter. case_decide; [subst | done].
    by destruct (consoles st !! c).
  - intros c. unfold history_of, historyHandle, setGreeting; simpl.
    rewrite lookup_alter. case_decide; [subst | done].
    by destruct (consoles st !! c).
Qed.

End DispatchMore.

Lemma help_lists_registered_witness :
  (fun r => (r.1, cout r.2))
    <$> executeCommand Demo.Quit 0 Demo.Y "help me" Demo.X_current
  = Some (Ok, help_listing ["exit"; "quit"; "run"; "help"]%string).
Proof.
  destruct (help_lists_registered Demo.Quit 0 Demo.Y Demo.Y "help" ["me"%string] []
              "help me" Demo.X_current) as (-> & _); reflexivity.
Defined.

Lemma run_missing_file_witness :
  (fun r => (r.1, opened r.2))
    <$> executeCommand Demo.Quit 1 Demo.X "run nowhere at all" Demo.X_current
  = Some (Error, ["nowhere"%string]).
Proof.
  destruct (run_missing_file Demo.Quit 0 Demo.X Demo.X "run" "nowhere"
              ["at"; "all"]%string [Demo.COMPLETE_FILE] "run nowhere at all"
              Demo.X_current) as (-> & _); reflexivity.
Defined.


Lemma getGreeting_setGreeting_witness :
  getGreeting Demo.X (setGreeting Demo.X "$ " Demo.two_consoles) = "$ "%string.
Proof.
  destruct (getGreeting_setGreeting Demo.X "$ " Demo.two_consoles) as [Hget _].
  - unfold alive. vm_compute. by eexists.
  - exact Hget.
Defined.

(** ** Reading lines and taking turns (Console.cpp:93-115, 168-186) *)

Section ReadLineMore.

Variable Quit : Z.

Implicit Types (this c d X Y : ConsolePtr) (st : Process) (fuel : nat) (line : string).

(** X13.  When the command on the line is a built-in one or a host
    handler that only prints and returns a code (the handlers of this
    development), a non-empty line read by [readLine] is appended to the
    history of the reading console, which is current afterwards, whatever
    code the command returns; the history of every other live console is
    as before, and the code returned is that of the dispatch. *)
Theorem readLine_appends_to_own_history fuel this line st (code : Z) st' :
  line <> EmptyString ->
  readLine Quit fuel this (Some line) st = Some (code, st') ->
  currentConsole st' = Some this
  /\ the_history st' = history_of this st ++ [line]
  /\ (forall d, d <> this -> alive d st -> history_of d st' = history_of d st)
  /\ executeCommand Quit fuel this line (add_history line (reserveConsole this st))
     = Some (code, st').
Proof.
  intros Hline Hread.
  destruct (readLine_records Quit fuel this line st code st' Hline Hread)
    as (Hcur & Hown & Hothers & _).
  split; [done |]. split; [| split; [done |]].
  - rewrite <- Hown. unfold history_of. by rewrite Hcur, bool_decide_eq_true_2.
  - unfold readLine in Hread. by destruct line.
Qed.

(** X14.  What [readLine] does when there is no command to run.  At the
    end of the input it writes a newline and returns [Quit].  An empty
    line returns [Ok] and is not recorded.  A line of white space only
    returns [Ok] without output as well, but is recorded in the history.
    In all three cases the console has been reserved. *)
Theorem readLine_without_command fuel this st :
  readLine Quit fuel this None st = Some (Quit, print endl (reserveConsole this st))
  /\ readLine Quit fuel this (Some EmptyString) st = Some (Ok, reserveConsole this st)
  /\ (forall line,
        line <> EmptyString -> blank line ->
        readLine Quit fuel this (Some line) st
        = Some (Ok, add_history line (reserveConsole this st))).
Proof.
  split; [done |]. split; [done |].
  intros line Hline Hblank. apply istream_words_nil in Hblank.
  unfold readLine, executeCommand, dispatch. rewrite Hblank. by destruct line.
Qed.

(** X16.  Reserving a console makes it current, makes its own history the
    live one, and changes the history of no live console: the single
    live history is saved into the console that loses the engine before
    the history of the new owner is installed. *)
Theorem reserveConsole_preserves_histories c st :
  currentConsole (reserveConsole c st) = Some c
  /\ the_history (reserveConsole c st) = history_of c st
  /\ (forall d, alive d st -> history_of d (reserveConsole c st) = history_of d st)
  /\ (forall d, alive d st -> alive d (reserveConsole c st)).
Proof.
  split; [apply currentConsole_reserveConsole |].
  split; [apply the_history_reserveConsole |]. split.
  - intros d Hd. destruct (decide (d = c)) as [-> | Hne].
    + unfold history_of at 1.
      rewrite currentConsole_reserveConsole, bool_decide_eq_true_2 by done.
      apply the_history_reserveConsole.
    + by apply history_of_reserveConsole_other.
  - intros d. apply alive_reserveConsole.
Qed.

(** X17.  Handing the engine from the current console [X] to Y and back
    restores the live history of [X] exactly; in between it sits in the
    handle of [X], and afterwards the handle of Y holds what Y had as
    its live history. *)
Theorem reserve_away_and_back X Y st :
  currentConsole st = Some X -> X <> Y -> alive X st -> alive Y st ->
  historyHandle X (reserveConsole Y st) = Some (the_history st)
  /\ the_history (reserveConsole X (reserveConsole Y st)) = the_history st
  /\ currentConsole (reserveConsole X (reserveConsole Y st)) = Some X
  /\ historyHandle Y (reserveConsole X (reserveConsole Y st))
     = Some (history_of Y st).
Proof.
  intros Hcur Hne HX HY.
  assert (historyHandle X (reserveConsole Y st) = Some (the_history st)) as Hsaved.
  { apply historyHandle_reserveConsole_previous; [done | congruence | done]. }
  split; [done |]. split; [| split].
  - rewrite the_history_reserveConsole. unfold history_of.
    rewrite currentConsole_reserveConsole, bool_decide_eq_false_2 by congruence.
    by rewrite Hsaved.
  - apply currentConsole_reserveConsole.
  - rewrite (historyHandle_reserveConsole_previous X Y).
    + by rewrite the_history_reserveConsole.
    + apply currentConsole_reserveConsole.
    + done.
    + by apply alive_reserveConsole.
Qed.

End ReadLineMore.

Lemma readLine_appends_to_own_history_witness :
  the_history (print (help_listing ["exit"; "quit"; "run"; "help"]%string)
                 (add_history "help" (reserveConsole Demo.Y Demo.X_current)))
  = history_of Demo.Y Demo.X_current ++ ["help"%string].
Proof.
  destruct (readLine_appends_to_own_history Demo.Quit 0 Demo.Y "help" Demo.X_current Ok
              (print (help_listing ["exit"; "quit"; "run"; "help"]%string)
                 (add_history "help" (reserveConsole Demo.Y Demo.X_current))))
    as (_ & Hown & _); [discriminate | reflexivity | exact Hown].
Defined.

Lemma readLine_without_command_witness :
  readLine Demo.Quit 0 Demo.X (Some "  "%string) Demo.two_consoles
  = Some (Ok, add_history "  " (reserveConsole Demo.X Demo.two_consoles)).
Proof.
  destruct (readLine_without_command Demo.Quit 0 Demo.X Demo.two_consoles)
    as (_ & _ & Hblank).
  apply (Hblank "  "%string); [discriminate | by repeat constructor].
Defined.

Lemma reserveConsole_preserves_histories_witness :
  history_of Demo.X (reserveConsole Demo.Y (add_history "one" Demo.X_current))
  = ["one"%string].
Proof.
  destruct (reserveConsole_preserves_histories Demo.Y (add_history "one" Demo.X_current))
    as (_ & _ & Hkeep & _).
  rewrite (Hkeep Demo.X); [reflexivity |].
  unfold alive. vm_compute. by eexists.
Defined.

Lemma reserve_away_and_back_witness :
  the_history (reserveConsole Demo.X
                 (reserveConsole Demo.Y (add_history "one" Demo.X_current)))
  = ["one"%string].
Proof.
  destruct (reserve_away_and_back Demo.X Demo.Y (add_history "one" Demo.X_current))
    as (_ & Hback & _).
  - reflexivity.
  - discriminate.
  - unfold alive. vm_compute. by eexists.
  - unfold alive. vm_compute. by eexists.
  - exact Hback.
Defined.

Lemma readLine_isolation_witness :
  the_history
    (reserveConsole Demo.X
       (add_history "quit" (reserveConsole Demo.Y
          (add_history "exit now" (add_history "  " (reserveConsole Demo.X Demo.two_consoles))))))
  = ["  "; "exit now"]%string.
Proof.
  destruct (readLine_isolation Demo.Quit 0 Demo.X Demo.Y "  " "exit now" "quit"
              Demo.two_consoles
              Ok (add_history "  " (reserveConsole Demo.X Demo.two_consoles))
              Demo.Quit
              (add_history "exit now"
                 (add_history "  " (reserveConsole Demo.X Demo.two_consoles)))
              Demo.Quit
              (add_history "quit" (reserveConsole Demo.Y
                 (add_history "exit now"
                    (add_history "  " (reserveConsole Demo.X Demo.two_consoles))))))
    as [Hlive _].
  - discriminate.
  - unfold alive. vm_compute. by eexists.
  - unfold alive. vm_compute. by eexists.
  - vm_compute. reflexivity.
  - vm_compute. reflexivity.
  - discriminate.
  - discriminate.
  - discriminate.
  - vm_compute. reflexivity.
  - vm_compute. reflexivity.
  - vm_compute. reflexivity.
  - exact Hlive.
Defined.

(** ** Completion on any call (Console.cpp:188-268) *)

Section CompletionMore.

Variable COMPLETE_FILE : string.

Implicit Types (st : Process) (cur : ConsolePtr) (text line hint name : string)
  (state : Z).

Lemma substring_of_trans (a b s : string) :
  Text.substring_of a b -> Text.substring_of b s -> Text.substring_of a s.
Proof.
  intros (p1 & q1 & ->) (p2 & q2 & ->). exists (p2 +:+ p1), (q1 +:+ q2).
  by rewrite !append_assoc.
Qed.

Lemma extract_substring (word s w : string) :
  w ∈ Text.extract word s -> Text.substring_of w (word +:+ s).
Proof.
  revert word. induction s as [|c s IH]; intros word; simpl.
  - destruct word as [|x word]; [by intros ?%elem_of_nil |].
    intros ->%list_elem_of_singleton. exists EmptyString, EmptyString.
    by rewrite TextFacts.append_nil.
  - destruct (Text.isspace c).
    + destruct word as [|x word].
      * intros (pre & post & Hs)%IH. rewrite TextFacts.append_nil in Hs |- *.
        exists (String c pre), post. by rewrite Hs.
      * intros [-> | (pre & post & Hs)%IH]%elem_of_cons.
        -- by exists EmptyString, (String c s).
        -- rewrite TextFacts.append_nil in Hs.
           exists (String x word +:+ String c pre), post.
           by rewrite Hs, !append_assoc.
    + intros (pre & post & Hs)%IH. rewrite append_snoc in Hs. by exists pre, post.
Qed.

(** A token of a line occurs in the line. *)
Lemma istream_words_substring (s w : string) :
  w ∈ Text.istream_words s -> Text.substring_of w s.
Proof. intros H. by apply extract_substring in H. Qed.

Lemma head_filter_Some {A} (P : A -> Prop) `{forall x, Decision (P x)} (l : list A) x :
  head (filter P l) = Some x -> P x /\ x ∈ l.
Proof. intros Hx%head_Some_elem_of. by apply list_elem_of_filter in Hx. Qed.

Lemma commandIterator_completion_kept text state st :
  completion_kept st (commandIterator text state st).2.
Proof.
  unfold commandIterator. destruct (currentConsole st); [| by repeat split].
  destruct (commandIterator_loop _ _ _). by repeat split.
Qed.

Lemma argumentIterator_completion_kept text state st :
  completion_kept st (argumentIterator COMPLETE_FILE text state st).2.
Proof.
  unfold argumentIterator. destruct (currentConsole st) as [cur|]; [| by repeat split].
  destruct (Text.istream_words (rl_line_buffer st) !! 0%nat); [| by repeat split].
  destruct (commands_of cur st !! _) as [[f params] |]; [| by repeat split].
  destruct (params !! 0%nat); [| by repeat split].
  destruct (String.eqb _ _); [by repeat split |].
  destruct (argumentIterator_loop _ _ _ _). by repeat split.
Qed.

(** X18.  When the line buffer holds white space only and a console is
    current, [argumentIterator] does not return: [results.at(0)] throws
    [std::out_of_range] on the empty token list (completion is asked past
    offset 0 after blanks have been typed). *)
Theorem argumentIterator_blank_buffer_throws text state st cur :
  currentConsole st = Some cur ->
  blank (rl_line_buffer st) ->
  argumentIterator COMPLETE_FILE text state st = (Throws out_of_range, st).
Proof.
  intros Hcur Hblank. apply istream_words_nil in Hblank.
  by apply (argumentIterator_blank_line COMPLETE_FILE text state st cur).
Qed.

(** X19.  For a first word that is not a registered command
    [argumentIterator] returns [nullptr] and leaves the process, and with
    it [rl_attempted_completion_over], untouched, so that readline falls
    back to its own completion; for a registered command whose first
    hint is not the sentinel every call sets
    [rl_attempted_completion_over] to 1. *)
Theorem argumentIterator_completion_over text state st cur (commandName : string)
    (more : list string) :
  currentConsole st = Some cur ->
  Text.istream_words (rl_line_buffer st) = commandName :: more ->
  (commands_of cur st !! commandName = None ->
   argumentIterator COMPLETE_FILE text state st = (Returns None, st))
  /\ (forall f first hints,
        commands_of cur st !! commandName = Some (f, first :: hints) ->
        first <> COMPLETE_FILE ->
        rl_attempted_completion_over (argumentIterator COMPLETE_FILE text state st).2 = 1).
Proof.
  intros Hcur Hwords. split.
  - intros Hcmd. unfold argumentIterator.
    rewrite Hcur, Hwords. cbn [lookup list_lookup]. by rewrite Hcmd.
  - intros f first hints Hcmd Hfirst. unfold argumentIterator.
    rewrite Hcur, Hwords. cbn [lookup list_lookup]. rewrite Hcmd.
    cbn [lookup list_lookup].
    rewrite (proj2 (String.eqb_neq first COMPLETE_FILE) Hfirst).
    by destruct (argumentIterator_loop _ _ _ _).
Qed.

(** X20.  A completion call, on command names or on arguments, with any
    text and any call number, changes nothing but the two function
    statics and [rl_attempted_completion_over]: the current console, the
    histories, the consoles and their commands, the line buffer, the
    output and the files are as before. *)
Theorem completion_keeps_session text (start _end : Z) state st :
  completion_kept st
    (getCommandCompletions COMPLETE_FILE (fun text gen => gen text state st)
       text start _end).2.
Proof.
  unfold getCommandCompletions. destruct (start =? 0).
  - apply commandIterator_completion_kept.
  - apply argumentIterator_completion_kept.
Qed.

(** X21.  In a session on the arguments of a registered command whose
    first hint is not the sentinel (calls numbered 0, 1, 2, ... with
    nothing else happening in between), every hint returned is one of the
    hints after the first, contains the second token of the line buffer,
    and occurs nowhere in the line buffer; the command name is part of the
    line buffer, so a hint that occurs inside the command name is never
    offered. *)
Theorem argumentIterator_sound text st cur (commandName : string)
    (more : list string) (f : CommandHandler) (first : string) (hints : list string)
    (n k : nat) hint :
  currentConsole st = Some cur ->
  Text.istream_words (rl_line_buffer st) = commandName :: more ->
  commands_of cur st !! commandName = Some (f, first :: hints) ->
  first <> COMPLETE_FILE ->
  (successive_calls n text (argumentIterator COMPLETE_FILE) st).1 !! k
    = Some (Returns (Some hint)) ->
  hint ∈ hints
  /\ Text.substring_of (argName_of (commandName :: more)) hint
  /\ ~ Text.substring_of hint (rl_line_buffer st)
  /\ ~ Text.substring_of hint commandName.
Proof.
  intros Hcur Hwords Hcmd Hfirst.
  set (matches := filter (offered (rl_line_buffer st) (argName_of (commandName :: more)))
                    hints).
  assert ((successive_calls n text (argumentIterator COMPLETE_FILE) st).1
          = (fun j => Returns (matches !! j)) <$> seq 0 n) as ->.
  { unfold successive_calls.
    apply (calls_from_enumerate (argumentIterator COMPLETE_FILE) text matches
             (argumentIterator_inv cur (rl_line_buffer st) commandName more f first hints)
             (fun j s => argumentIterator_step COMPLETE_FILE cur _ _ _ _ _ _ text j s Hfirst)
             n 0%nat st).
    split; [done |]. split; [done |]. split; [done |]. split; [done |]. by left. }
  rewrite list_lookup_fmap. intros Hk.
  destruct (seq 0 n !! k) as [j|] eqn:Hj; [| done].
  injection Hk as Hk. apply list_elem_of_lookup_2 in Hk.
  apply list_elem_of_filter in Hk as [[Hline Harg] Hin].
  assert (~ Text.substring_of hint (rl_line_buffer st)) as Hnot.
  { rewrite <- TextFacts.strstr_substring. by rewrite Hline. }
  split; [done |]. split; [by apply TextFacts.contains_substring |]. split; [done |].
  intros Hsub. apply Hnot. apply (substring_of_trans _ commandName); [done |].
  apply istream_words_substring. rewrite Hwords. by left.
Qed.

End CompletionMore.

Lemma argumentIterator_blank_buffer_throws_witness :
  argumentIterator Demo.COMPLETE_FILE "" 0 More.typing_blanks
  = (Throws out_of_range, More.typing_blanks).
Proof.
  apply (argumentIterator_blank_buffer_throws Demo.COMPLETE_FILE "" 0 More.typing_blanks
           Demo.X); [reflexivity | by repeat constructor].
Defined.

Lemma argumentIterator_completion_over_witness :
  argumentIterator Demo.COMPLETE_FILE "x" 0 More.typing_unknown
  = (Returns None, More.typing_unknown).
Proof.
  destruct (argumentIterator_completion_over Demo.COMPLETE_FILE "x" 0 More.typing_unknown
              Demo.X "frob" ["x"%string]) as [Hunknown _];
    [reflexivity | reflexivity |].
  apply Hunknown. reflexivity.
Defined.

Lemma argumentIterator_sound_witness :
  ~ Text.substring_of "safe" "mode sa".
Proof.
  destruct (argumentIterator_sound Demo.COMPLETE_FILE "sa" Demo.typing_mode Demo.X
              "mode" ["sa"%string] Demo.mode.1 "--" ["fast"; "safe"; "unsafe"]%string
              3 0 "safe") as (_ & _ & Hnot & _);
    [reflexivity | reflexivity | reflexivity | discriminate | reflexivity |].
  exact Hnot.
Defined.

(** ** Scripts in sequence (Console.cpp:155-165) *)

Section ScriptMore.

Variable Quit : Z.

Implicit Types (this : ConsolePtr) (st : Process) (fuel : nat)
  (lines more : list string) (counter code : Z).

Lemma script_loop_app_general (exec : string -> Call) lines more counter st code st' :
  script_loop exec lines counter st = Some (code, st') ->
  (code = Ok ->
   script_loop exec (lines ++ more) counter st
   = script_loop exec more
       (counter + Z.of_nat (length (filter (fun l => is_comment l = false) lines))) st')
  /\ (code <> Ok -> script_loop exec (lines ++ more) counter st = Some (code, st')).
Proof.
  revert counter st. induction lines as [|line lines IH]; intros counter st.
  - intros [= <- <-]. split; [| done]. intros _. simpl. by rewrite Z.add_0_r.
  - rewrite filter_cons. destruct (is_comment line) eqn:Hc.
    + rewrite decide_False by done. cbn [app].
      rewrite !script_loop_comment by done. apply IH.
    + rewrite decide_True by done. unfold is_comment in Hc.
      cbn [app script_loop]. rewrite Hc.
      destruct (exec line _) as [[result st1] |]; [| done].
      destruct (result =? 0) eqn:Hz.
      * intros H. destruct (IH _ _ H) as [Hok Hstop]. split; [| done].
        intros Hcode. rewrite (Hok Hcode). f_equal. cbn [length]. lia.
      * intros [= <- <-]. apply Z.eqb_neq in Hz. by split.
Qed.

(** X23.  Running the lines of a script one part after the other: when
    the first part ends with [Ok], the whole script goes on with the
    second part from where the first one left, the sequence number
    advanced by the number of lines of the first part that are not
    comments; when the first part stops with another code, the whole
    script stops there with that code and the second part is never
    looked at. *)
Theorem script_loop_app fuel this lines more counter st code st' :
  script_loop (executeCommand Quit fuel this) lines counter st = Some (code, st') ->
  (code = Ok ->
   script_loop (executeCommand Quit fuel this) (lines ++ more) counter st
   = script_loop (executeCommand Quit fuel this) more
       (counter + Z.of_nat (length (filter (fun l => is_comment l = false) lines))) st')
  /\ (code <> Ok ->
      script_loop (executeCommand Quit fuel this) (lines ++ more) counter st
      = Some (code, st')).
Proof. apply script_loop_app_general. Qed.

End ScriptMore.

Lemma script_loop_app_witness :
  script_loop (executeCommand Demo.Quit 0 Demo.X)
    (["#first"; "nothing"; "#second"]%string ++ ["help"%string]) 3 Demo.X_current
  = Some (Error,
          print ("Command 'nothing' not found." +:+ endl)%string
            (print (echo 3 "nothing") Demo.X_current)).
Proof.
  destruct (script_loop_app Demo.Quit 0 Demo.X ["#first"; "nothing"; "#second"]%string
              ["help"%string] 3 Demo.X_current Error
              (print ("Command 'nothing' not found." +:+ endl)%string
                 (print (echo 3 "nothing") Demo.X_current))) as [_ Hstop].
  - vm_compute. reflexivity.
  - apply Hstop. discriminate.
Defined.

Lemma Console_new_builtins_witness :
  getRegisteredCommands Demo.Y Demo.two_consoles ≡ₚ ["help"; "run"; "quit"; "exit"]%string.
Proof.
  destruct (Console_new_builtins Demo.COMPLETE_FILE Demo.Y "Y> "
              (Console_new Demo.COMPLETE_FILE Demo.X "X> " (process_start Demo.disk)))
    as [Hnames _].
  exact Hnames.
Defined.

Lemma completion_keeps_session_witness :
  completion_kept Demo.typing_mode
    (argumentIterator Demo.COMPLETE_FILE "sa" 0 Demo.typing_mode).2.
Proof.
  apply (completion_keeps_session Demo.COMPLETE_FILE "sa" 5 7 0 Demo.typing_mode).
Defined.

(** ** Empty lines of a script (Console.cpp:155-162) *)

Section EmptyLine.

Variable Quit : Z.

Implicit Types (this : ConsolePtr) (st : Process) (fuel : nat)
  (more lines : list string) (counter code : Z).

Lemma cout_extends_refl st : cout_extends st st.
Proof. exists EmptyString. by rewrite append_empty_r. Qed.

Lemma cout_extends_trans st1 st2 st3 :
  cout_extends st1 st2 -> cout_extends st2 st3 -> cout_extends st1 st3.
Proof.
  intros [a Ha] [b Hb]. exists (a +:+ b). by rewrite Hb, Ha, append_assoc.
Qed.

Lemma cout_extends_print (s : string) st : cout_extends st (print s st).
Proof. by exists s. Qed.

Lemma cout_extends_open_ifstream (filename : string) st :
  cout_extends st (open_ifstream filename st).
Proof. exists EmptyString. simpl. by rewrite append_empty_r. Qed.

Lemma appends_invoke (ef : ConsolePtr -> string -> Call) (f : CommandHandler)
    (input0 : string) (rest : list string) :
  (forall c filename, appends (ef c filename)) ->
  appends (invoke Quit ef f input0 rest).
Proof.
  intros Hef st code st'. destruct f as [c | c | | g]; simpl.
  - intros [= <- <-]. rewrite foldl_print_names. apply cout_extends_print.
  - destruct rest as [|filename rest]; [| apply Hef].
    intros [= <- <-]. apply cout_extends_print.
  - intros [= <- <-]. apply cout_extends_refl.
  - destruct (g (input0 :: rest)) as [r text]. intros [= <- <-].
    apply cout_extends_print.
Qed.

Lemma appends_dispatch (ef : ConsolePtr -> string -> Call) this (command : string) :
  (forall c filename, appends (ef c filename)) ->
  appends (dispatch Quit ef this command).
Proof.
  intros Hef st code st'. unfold dispatch.
  destruct (Text.istream_words command) as [|input0 rest].
  - intros [= <- <-]. apply cout_extends_refl.
  - destruct (find_command this input0 st) as [[f hints] |].
    + by apply appends_invoke.
    + intros [= <- <-]. apply cout_extends_print.
Qed.

Lemma appends_script_loop (exec : string -> Call) lines counter :
  (forall command, appends (exec command)) ->
  appends (script_loop exec lines counter).
Proof.
  intros Hexec. revert counter.
  induction lines as [|line more IH]; intros counter st code st'; simpl.
  - intros [= <- <-]. apply cout_extends_refl.
  - destruct (Ascii.eqb _ _); [apply IH |].
    destruct (exec line _) as [[result st1] |] eqn:He; [| done].
    apply Hexec in He.
    assert (cout_extends st st1) as Hst1.
    { eapply cout_extends_trans; [apply cout_extends_print | exact He]. }
    destruct (result =? 0).
    + intros H. apply IH in H. eapply cout_extends_trans; [exact Hst1 |].
      eapply cout_extends_trans; [apply (cout_extends_print endl) | exact H].
    + by intros [= <- <-].
Qed.

Lemma appends_executeFile fuel this (filename : string) :
  appends (executeFile Quit fuel this filename).
Proof.
  revert this filename. induction fuel as [|fuel IH]; intros this filename st code st';
    [done |].
  cbn [executeFile].
  destruct (files (open_ifstream filename st) filename) as [lines |].
  - intros H. apply appends_script_loop in H.
    + eapply cout_extends_trans; [apply (cout_extends_open_ifstream filename) | exact H].
    + intros command. by apply appends_dispatch.
  - intros [= <- <-].
    eapply cout_extends_trans; [apply (cout_extends_open_ifstream filename) |].
    apply cout_extends_print.
Qed.

Lemma appends_executeCommand fuel this (command : string) :
  appends (executeCommand Quit fuel this command).
Proof. apply appends_dispatch. intros c filename. apply appends_executeFile. Qed.

(** C10.  An empty line is not a comment; the runner echoes it with its
    sequence number, its dispatch returns [Ok] without a change, and the
    loop goes on with the next line and the next number.  So a script
    that is one empty line returns [Ok] with the echo and the newline
    written, from [executeFile] too; a script that starts with an empty
    line returns whenever the dispatch of each later line does, and
    whatever it returns, its output starts with the echo of the empty
    line. *)
Theorem empty_line_is_dispatched fuel this more counter st :
  is_comment EmptyString = false
  /\ executeCommand Quit fuel this EmptyString (print (echo counter EmptyString) st)
     = Some (Ok, print (echo counter EmptyString) st)
  /\ echo counter EmptyString = ("[" +:+ Text.of_int counter +:+ "] " +:+ endl)%string
  /\ script_loop (executeCommand Quit fuel this) (EmptyString :: more) counter st
     = script_loop (executeCommand Quit fuel this) more (counter + 1)
         (print endl (print (echo counter EmptyString) st))
  /\ script_loop (executeCommand Quit fuel this) [EmptyString] counter st
     = Some (Ok, print endl (print (echo counter EmptyString) st))
  /\ (forall filename : string,
        files st filename = Some [EmptyString] ->
        executeFile Quit (S fuel) this filename st
        = Some (Ok, print endl (print (echo 0 EmptyString) (open_ifstream filename st))))
  /\ ((forall line s, line ∈ more -> is_Some (executeCommand Quit fuel this line s)) ->
      is_Some (script_loop (executeCommand Quit fuel this) (EmptyString :: more) counter st))
  /\ (forall code st',
        script_loop (executeCommand Quit fuel this) (EmptyString :: more) counter st
        = Some (code, st') ->
        exists out,
          cout st' = (cout st +:+ echo counter EmptyString +:+ endl +:+ out)%string).
Proof.
  assert (script_loop (executeCommand Quit fuel this) (EmptyString :: more) counter st
          = script_loop (executeCommand Quit fuel this) more (counter + 1)
              (print endl (print (echo counter EmptyString) st))) as Hnext
    by by apply script_loop_continue.
  split; [done |]. split; [done |]. split; [done |]. split; [exact Hnext |].
  split; [done |]. split; [| split].
  - intros filename Hfile. cbn [executeFile].
    change (files (open_ifstream filename st) filename) with (files st filename).
    by rewrite Hfile.
  - intros Hreturns. rewrite Hnext. by apply script_loop_returns.
  - intros code st' Hrun. rewrite Hnext in Hrun.
    apply appends_script_loop in Hrun; [| intros command; apply appends_executeCommand].
    destruct Hrun as [out Hout]. exists out. rewrite Hout. simpl.
    by rewrite !append_assoc.
Qed.

End EmptyLine.

Lemma empty_line_is_dispatched_witness :
  script_loop (executeCommand Demo.Quit 0 Demo.X) [EmptyString; "quit"%string] 1
    Demo.X_current
  = Some (Demo.Quit,
          print (echo 2 "quit") (print endl (print (echo 1 EmptyString) Demo.X_current)))
  /\ exists out,
       cout (print (echo 2 "quit") (print endl (print (echo 1 EmptyString) Demo.X_current)))
       = (cout Demo.X_current +:+ echo 1 EmptyString +:+ endl +:+ out)%string.
Proof.
  destruct (empty_line_is_dispatched Demo.Quit 0 Demo.X ["quit"%string] 1 Demo.X_current)
    as (_ & _ & _ & Hnext & _ & _ & _ & Hout).
  assert (script_loop (executeCommand Demo.Quit 0 Demo.X) [EmptyString; "quit"%string] 1
            Demo.X_current
          = Some (Demo.Quit,
                  print (echo 2 "quit")
                    (print endl (print (echo 1 EmptyString) Demo.X_current)))) as Hrun.
  { rewrite Hnext. vm_compute. reflexivity. }
  split; [exact Hrun |]. exact (Hout _ _ Hrun).
Defined.
